(** * MCleaner: the IMAP session and deletion workflow of [mcleaner.py]

    A shallow embedding of [process_mailbox_folder], [process_mailbox] and
    the account loop of [main].  The program talks to a mail server through
    [imaplib]; every library call either returns a value or raises a Python
    exception.  The library and the server are not part of the program, so
    they appear here as an arbitrary deterministic oracle that answers each
    call from the history of everything that happened before it.  The
    program itself is written in a small monad that records the trace of
    library calls (with their outcomes) and of log records, and that
    propagates exceptions the way Python does. *)

From Stdlib Require Import List String Ascii ZArith Lia Bool.
Import ListNotations.

Open Scope string_scope.
Open Scope list_scope.

(** ** Values exchanged with [imaplib] *)

(** Python [bytes]; one [ascii] per octet. *)
Definition bytes : Type := string.

(** The identity of an [imaplib.IMAP4_SSL] connection object. *)
Definition Session : Type := nat.

(** One element of the data list of an [imaplib] reply: [None], a [bytes]
    object, or the [(header, literal)] tuple of a fetched literal. *)
Inductive Part : Type :=
| PNone
| PBytes (b : bytes)
| PTuple (header body : bytes).

(** Every [imaplib] command returns [(typ, [data, ...])]. *)
Definition Reply : Type := (string * list Part)%type.

(** Python exceptions that occur in the program.  All of them derive from
    [Exception].  [IMAP4_error] stands for [imaplib.IMAP4.error] and its
    subclasses [abort] and [readonly] ([imaplib.IMAP4_SSL.error] is the
    same class); [OSError] for socket and TLS failures. *)
Inductive Exn : Type :=
| IMAP4_error (msg : string)
| OSError (msg : string)
| UnboundLocalError (name : string)
| KeyError (key : string)
| IndexError
| AttributeError
| TypeError
| UnicodeDecodeError.

Definition is_IMAP4_error (e : Exn) : bool :=
  match e with IMAP4_error _ => true | _ => false end.

(** The search criterion [f'(OLDER {n})']. *)
Inductive Criterion : Type :=
| OLDER (seconds : Z).

(** The [imaplib] methods the program calls on a connection, with the
    arguments that vary ([select] is always called with [readonly=False],
    [search] with charset [None], [fetch] with ['(RFC822)'], [store] with
    ['+FLAGS'] and ['\\Deleted']). *)
Inductive Command : Type :=
| Login (user password : string)
| Select (folder : string)
| Search (c : Criterion)
| Fetch (num : bytes)
| Store (num : bytes)
| Expunge
| Close
| Logout.

(** ** Log records

    The records of the [logging] calls, kept structured: one constructor
    per format string of the source, carrying the interpolated values. *)
Inductive Level : Type := INFO | ERROR.

Inductive LogMsg : Type :=
| MsgStart
    (* 'Start ifcm.com.ru mail cleaner' *)
| MsgSearch (user folder : string) (cut_time : Z)
    (* '{user}: {folder}: Search for messages older {cut_time}h' *)
| MsgMarkDated (user folder : string) (num : bytes) (date : option string)
    (* '{user}: {folder}: Add Delete mark for message #{num}, message date: {msg[Date]}' *)
| MsgMark (user folder : string) (num : bytes)
    (* '{user}: {folder}: Add Delete mark for message #{num}' *)
| MsgSearchFailed (user folder status : string)
    (* '{user}: {folder}: Failed to search emails: {status}' *)
| MsgExpunge (user folder : string)
    (* '{user}: {folder}: Delete all marked messages' *)
| MsgImapError (user : string) (e : Exn)
    (* '{user}: IMAP error: {e}' *)
| MsgMailboxError (user : string) (e : Exn).
    (* '{user}: Error processing mailbox: {e}' *)

(** ** Traces *)

Inductive Event : Type :=
| Connected (host : string) (r : Exn + Session)
    (* imaplib.IMAP4_SSL(host) was called, with its outcome *)
| Commanded (mail : Session) (c : Command) (r : Exn + Reply)
    (* a method was called on connection [mail], with its outcome *)
| Logged (lvl : Level) (m : LogMsg).

Definition Trace : Type := list Event.

(** ** The environment

    [imap4_ssl] and [command] answer the library calls from the history;
    [decode_utf8] is [bytes.decode('utf-8')] ([None]: [UnicodeDecodeError]);
    [message_date part] is [email.message_from_string(part)['Date']]
    ([None]: the header is absent, and Python yields [None]). *)
Record World : Type := {
  imap4_ssl : Trace -> string -> Exn + Session;
  command : Trace -> Session -> Command -> Exn + Reply;
  decode_utf8 : bytes -> option string;
  message_date : string -> option string
}.

(** An [email.message.Message], identified by the text it was parsed from. *)
Inductive Message : Type :=
| message_from_string (part : string).

Definition getitem_Date (w : World) (msg : Message) : option string :=
  match msg with message_from_string part => message_date w part end.

(** ** The monad: history in, outcome and emitted events out *)

Definition M (A : Type) : Type := Trace -> (Exn + A) * Trace.

Definition ret {A : Type} (a : A) : M A := fun _ => (inr a, []).

Definition raise {A : Type} (e : Exn) : M A := fun _ => (inl e, []).

Definition bind {A B : Type} (m : M A) (f : A -> M B) : M B :=
  fun h =>
    match m h with
    | (inl e, out) => (inl e, out)
    | (inr a, out) =>
        match f a (h ++ out) with
        | (r, out') => (r, out ++ out')
        end
    end.

(** Runs [m] and hands its outcome, exception or value, to the caller:
    the entry of a [try] block. *)
Definition attempt {A : Type} (m : M A) : M (Exn + A) :=
  fun h => match m h with (r, out) => (inr r, out) end.

Declare Scope py_scope.
Delimit Scope py_scope with py.
Notation "x <- m ;; k" := (bind m (fun x => k))
  (at level 61, m at next level, right associativity) : py_scope.
Notation "m ;; k" := (bind m (fun _ => k))
  (at level 61, right associativity) : py_scope.
Open Scope py_scope.

Definition logging (lvl : Level) (m : LogMsg) : M unit :=
  fun _ => (inr tt, [Logged lvl m]).

Definition IMAP4_SSL (w : World) (host : string) : M Session :=
  fun h => let r := imap4_ssl w h host in (r, [Connected host r]).

Definition call (w : World) (mail : Session) (c : Command) : M Reply :=
  fun h => let r := command w h mail c in (r, [Commanded mail c r]).

(** ** Python helpers *)

(** ASCII whitespace, as [bytes.split()] understands it. *)
Definition is_space (c : ascii) : bool :=
  match nat_of_ascii c with
  | 9 | 10 | 11 | 12 | 13 | 32 => true
  | _ => false
  end.

Definition flush (cur : string) (acc : list bytes) : list bytes :=
  match cur with EmptyString => acc | _ => cur :: acc end.

Fixpoint split_from (cur : string) (s : bytes) : list bytes :=
  match s with
  | EmptyString => flush cur []
  | String c s' =>
      if is_space c then flush cur (split_from EmptyString s')
      else split_from (String.append cur (String c EmptyString)) s'
  end.

(** [b.split()]: the maximal runs of non-whitespace octets, in order. *)
Definition bytes_split (b : bytes) : list bytes := split_from EmptyString b.

(** A dict whose iteration order matters: an association list in
    insertion order (a dict loaded from JSON has distinct keys). *)
Definition Dict (V : Type) : Type := list (string * V).

Definition keys {V : Type} (d : Dict V) : list string := map fst d.

Fixpoint getitem {V : Type} (d : Dict V) (k : string) : option V :=
  match d with
  | [] => None
  | (k', v) :: d' => if String.eqb k k' then Some v else getitem d' k
  end.

(** [d[k]], raising [KeyError] when the key is absent. *)
Definition subscript {V : Type} (d : Dict V) (k : string) : M V :=
  match getitem d k with
  | Some v => ret v
  | None => raise (KeyError k)
  end.

(** ** [process_mailbox_folder] *)

(** [messages[0].split()] on the data list of the search reply. *)
Definition first_split (messages : list Part) : M (list bytes) :=
  match messages with
  | [] => raise IndexError
  | PBytes b :: _ => ret (bytes_split b)
  | _ :: _ => raise AttributeError
  end.

(** The inner loop [for response_part in msg_data]: every tuple part is
    decoded and parsed, the last one wins; [msg] starts as [None]. *)
Fixpoint parse_parts (w : World) (msg : option Message) (msg_data : list Part)
  : M (option Message) :=
  match msg_data with
  | [] => ret msg
  | PTuple _ body :: rest =>
      match decode_utf8 w body with
      | None => raise UnicodeDecodeError
      | Some part => parse_parts w (Some (message_from_string part)) rest
      end
  | _ :: rest => parse_parts w msg rest
  end.

(** The test [(i == 0) or (i == len(messages) - 1)]. *)
Definition boundary (len i : nat) : bool :=
  (i =? 0)%nat || (Z.of_nat i =? Z.of_nat len - 1)%Z.

(** The body of [for i, num in enumerate(messages)] up to the log call. *)
Definition announce (w : World) (mail : Session) (user folder : string)
    (len i : nat) (num : bytes) : M unit :=
  if boundary len i then
    r <- call w mail (Fetch num) ;;
    msg <- parse_parts w None (snd r) ;;
    match msg with
    | None => raise TypeError
    | Some m => logging INFO (MsgMarkDated user folder num (getitem_Date w m))
    end
  else
    logging INFO (MsgMark user folder num).

(** [for i, num in enumerate(messages)], from index [i] on; [len] is
    [len(messages)] of the whole list. *)
Fixpoint mark_loop (w : World) (mail : Session) (user folder : string)
    (len i : nat) (messages : list bytes) : M unit :=
  match messages with
  | [] => ret tt
  | num :: rest =>
      announce w mail user folder len i num ;;
      call w mail (Store num) ;;
      mark_loop w mail user folder len (S i) rest
  end.

(** The block [if status == 'OK': ... else: ...] on the search reply. *)
Definition process_found (w : World) (mail : Session) (user folder : string)
    (r : Reply) : M unit :=
  let (status, messages) := r in
  if String.eqb status "OK" then
    messages <- first_split messages ;;
    mark_loop w mail user folder (List.length messages) 0 messages
  else
    logging ERROR (MsgSearchFailed user folder status).

Definition process_mailbox_folder (w : World) (mail : Session)
    (user folder : string) (cut_time : Z) : M unit :=
  call w mail (Select folder) ;;
  logging INFO (MsgSearch user folder cut_time) ;;
  r <- call w mail (Search (OLDER (cut_time * 60 * 60))) ;;
  process_found w mail user folder r ;;
  logging INFO (MsgExpunge user folder) ;;
  call w mail Expunge ;;
  ret tt.

(** ** [process_mailbox] *)

(** [mbox_config]: the account entry of the configuration file. *)
Record MboxConfig : Type := {
  imap : string;
  username : string;
  password : string
}.

(** [for fld in cutoff_config: process_mailbox_folder(mail, user, fld,
    cutoff_config[fld])], over the keys still to visit. *)
Fixpoint folder_loop (w : World) (mail : Session) (user : string)
    (cutoff_config : Dict Z) (flds : list string) : M unit :=
  match flds with
  | [] => ret tt
  | fld :: rest =>
      cut_time <- subscript cutoff_config fld ;;
      process_mailbox_folder w mail user fld cut_time ;;
      folder_loop w mail user cutoff_config rest
  end.

(** The record an [except] clause writes: the first clause takes
    [imaplib.IMAP4_SSL.error], the second any other [Exception]. *)
Definition account_error (user : string) (e : Exn) : LogMsg :=
  if is_IMAP4_error e then MsgImapError user e else MsgMailboxError user e.

(** The two [except] clauses.  [user] is the local variable as it is when
    the exception arrives: [None] while it is still unassigned, and then
    reading it in the f-string raises [UnboundLocalError]. *)
Definition except_clauses (user : option string) (e : Exn) : M unit :=
  match user with
  | None => raise (UnboundLocalError "user")
  | Some u => logging ERROR (account_error u e)
  end.

(** The statements of the [try] block after [user] is assigned. *)
Definition session_body (w : World) (mail : Session) (user : string)
    (mbox_config : MboxConfig) (cutoff_config : Dict Z) : M unit :=
  call w mail (Login user (password mbox_config)) ;;
  folder_loop w mail user cutoff_config (keys cutoff_config) ;;
  call w mail Close ;;
  call w mail Logout ;;
  ret tt.

(** The [try] statement: the connection is opened while [user] is still
    unassigned; the rest of the block runs with [user] bound.  Whatever
    is raised goes to the [except] clauses, and what they raise leaves the
    function. *)
Definition process_mailbox (w : World) (mbox_config : MboxConfig)
    (cutoff_config : Dict Z) : M unit :=
  r <- attempt (IMAP4_SSL w (imap mbox_config)) ;;
  match r with
  | inl e => except_clauses None e
  | inr mail =>
      let user := username mbox_config in
      r <- attempt (session_body w mail user mbox_config cutoff_config) ;;
      match r with
      | inl e => except_clauses (Some user) e
      | inr _ => ret tt
      end
  end.

(** ** [main]: the account loop over the loaded configuration *)

Record Config : Type := {
  mboxes : Dict MboxConfig;
  cutofftime : Dict Z
}.

(** [for mbox in config['mboxes']: process_mailbox(config['mboxes'][mbox],
    config['cutofftime'])], over the keys still to visit. *)
Fixpoint mbox_loop (w : World) (config : Config) (ids : list string) : M unit :=
  match ids with
  | [] => ret tt
  | mbox :: rest =>
      mbox_config <- subscript (mboxes config) mbox ;;
      process_mailbox w mbox_config (cutofftime config) ;;
      mbox_loop w config rest
  end.

(** [main] once the configuration file has been read: the start record,
    then the account loop.  An exception that leaves [main] ends the run. *)
Definition main (w : World) (config : Config) : M unit :=
  logging INFO MsgStart ;;
  mbox_loop w config (keys (mboxes config)).

(** ** Observations on traces *)

Definition store_of (ev : Event) : list bytes :=
  match ev with Commanded _ (Store num) _ => [num] | _ => [] end.

Definition fetch_of (ev : Event) : list bytes :=
  match ev with Commanded _ (Fetch num) _ => [num] | _ => [] end.

Definition expunge_of (ev : Event) : list Session :=
  match ev with Commanded mail Expunge _ => [mail] | _ => [] end.

Definition select_of (ev : Event) : list string :=
  match ev with Commanded _ (Select folder) _ => [folder] | _ => [] end.

Definition search_of (ev : Event) : list Criterion :=
  match ev with Commanded _ (Search c) _ => [c] | _ => [] end.

Definition teardown_of (ev : Event) : list (Session * Command) :=
  match ev with
  | Commanded mail Close _ => [(mail, Close)]
  | Commanded mail Logout _ => [(mail, Logout)]
  | _ => []
  end.

(** The message references marked for deletion, in the order of the calls. *)
Definition stores (tr : Trace) : list bytes := flat_map store_of tr.

(** The message references fetched, in the order of the calls. *)
Definition fetches (tr : Trace) : list bytes := flat_map fetch_of tr.

(** The connections on which an expunge was issued. *)
Definition expunges (tr : Trace) : list Session := flat_map expunge_of tr.

(** The folders a select was issued for, in the order of the calls. *)
Definition selects (tr : Trace) : list string := flat_map select_of tr.

(** The criteria of the searches issued. *)
Definition searches (tr : Trace) : list Criterion := flat_map search_of tr.

(** The teardown calls ([close], [logout]) issued. *)
Definition teardowns (tr : Trace) : list (Session * Command) :=
  flat_map teardown_of tr.

(** The exception a library call ended with, if it raised. *)
Definition raised (ev : Event) : option Exn :=
  match ev with
  | Connected _ (inl e) => Some e
  | Commanded _ _ (inl e) => Some e
  | _ => None
  end.

(** No library call of the trace raised. *)
Definition quiet (tr : Trace) : Prop := Forall (fun ev => raised ev = None) tr.

(** A library exception is never swallowed: either no call raised, or the
    one call that raised is the last event and its exception is the
    outcome. *)
Definition fail_stop {A : Type} (r : Exn + A) (out : Trace) : Prop :=
  quiet out \/
  exists pre ev e, out = pre ++ [ev] /\ quiet pre /\ raised ev = Some e /\ r = inl e.

Definition FailStop {A : Type} (m : M A) : Prop :=
  forall h r out, m h = (r, out) -> fail_stop r out.

(** Every event [m] emits satisfies [P]. *)
Definition Emits {A : Type} (P : Event -> Prop) (m : M A) : Prop :=
  forall h r out, m h = (r, out) -> Forall P out.

(** The events of the marking block: fetches, stores and their records,
    and the record of a failed search. *)
Definition marking (mail : Session) (ev : Event) : Prop :=
  match ev with
  | Commanded s (Fetch _) _ => s = mail
  | Commanded s (Store _) _ => s = mail
  | Logged INFO (MsgMark _ _ _) => True
  | Logged INFO (MsgMarkDated _ _ _ _) => True
  | Logged ERROR (MsgSearchFailed _ _ _) => True
  | _ => False
  end.

(** The events of the folder loop: anything on the connection but
    [login], [close] and [logout], and no account-level record. *)
Definition reaping (mail : Session) (ev : Event) : Prop :=
  match ev with
  | Commanded s (Login _ _) _ => False
  | Commanded s Close _ => False
  | Commanded s Logout _ => False
  | Commanded s _ _ => s = mail
  | Connected _ _ => False
  | Logged _ (MsgImapError _ _) => False
  | Logged _ (MsgMailboxError _ _) => False
  | Logged _ MsgStart => False
  | Logged _ _ => True
  end.

(** The references at the boundary indices of [messages], counted from
    index [i] of a list of length [len]. *)
Fixpoint boundary_refs (len i : nat) (messages : list bytes) : list bytes :=
  match messages with
  | [] => []
  | num :: rest =>
      if boundary len i then num :: boundary_refs len (S i) rest
      else boundary_refs len (S i) rest
  end.

(** What one round of the loop emits before the store: the plain record,
    or the fetch, followed by the dated record when the message parsed. *)
Inductive announced (w : World) (mail : Session) (user folder : string)
    (len i : nat) (num : bytes) (h : Trace) : Exn + unit -> Trace -> Prop :=
| announced_plain :
    boundary len i = false ->
    announced w mail user folder len i num h
      (inr tt) [Logged INFO (MsgMark user folder num)]
| announced_fetch_raised e :
    boundary len i = true ->
    command w h mail (Fetch num) = inl e ->
    announced w mail user folder len i num h
      (inl e) [Commanded mail (Fetch num) (inl e)]
| announced_unparsed rp e :
    boundary len i = true ->
    command w h mail (Fetch num) = inr rp ->
    announced w mail user folder len i num h
      (inl e) [Commanded mail (Fetch num) (inr rp)]
| announced_dated rp date :
    boundary len i = true ->
    command w h mail (Fetch num) = inr rp ->
    announced w mail user folder len i num h
      (inr tt) [Commanded mail (Fetch num) (inr rp);
                Logged INFO (MsgMarkDated user folder num date)].

(** ** Example worlds *)

Module Examples.

(** The folder of the most recent [select] in the history. *)
Fixpoint last_selected (h : Trace) (cur : string) : string :=
  match h with
  | [] => cur
  | Commanded _ (Select folder) _ :: h' => last_selected h' folder
  | _ :: h' => last_selected h' cur
  end.

(** A server described by which hosts refuse connections, which commands
    raise, and what a search in each folder replies. *)
Record Script : Type := {
  refuses : string -> bool;
  fault : Command -> option Exn;
  found : string -> Reply
}.

Definition served (s : Script) : World := {|
  imap4_ssl := fun h host =>
    if refuses s host then inl (OSError "Connection refused")
    else inr (List.length h);
  command := fun h mail c =>
    match fault s c with
    | Some e => inl e
    | None =>
        match c with
        | Search _ => inr (found s (last_selected h ""))
        | Fetch num => inr ("OK", [PTuple "RFC822" num; PBytes ")"])
        | _ => inr ("OK", [PBytes ""])
        end
    end;
  decode_utf8 := fun b => Some b;
  message_date := fun part => Some part
|}.

(** INBOX holds three old messages, every other folder none. *)
Definition inbox3 (folder : string) : Reply :=
  if String.eqb folder "INBOX" then ("OK", [PBytes "4 9 17"])
  else ("OK", [PBytes ""]).

Definition healthy : World :=
  served {| refuses := fun _ => false; fault := fun _ => None; found := inbox3 |}.

Definition anna : MboxConfig :=
  {| imap := "imap.example.org"; username := "anna"; password := "pw" |}.

Definition boris : MboxConfig :=
  {| imap := "mail.example.net"; username := "boris"; password := "pw" |}.

Definition two_folders : Dict Z := [("INBOX", 24%Z); ("Spam", 1%Z)].

Definition two_accounts : Config :=
  {| mboxes := [("a", anna); ("b", boris)]; cutofftime := two_folders |}.

(** Selecting the folder Missing raises. *)
Definition no_such_folder : World :=
  served {| refuses := fun _ => false;
            fault := fun c =>
              match c with
              | Select "Missing" => Some (IMAP4_error "SELECT command error: BAD")
              | _ => None
              end;
            found := inbox3 |}.

Definition missing_first : Dict Z := [("Missing", 24%Z); ("INBOX", 24%Z)].

(** The connection drops during the first search. *)
Definition search_aborts : World :=
  served {| refuses := fun _ => false;
            fault := fun c =>
              match c with
              | Search _ => Some (IMAP4_error "socket error: EOF")
              | _ => None
              end;
            found := inbox3 |}.

(** The host of the first account refuses the connection. *)
Definition first_host_down : World :=
  served {| refuses := fun host => String.eqb host "imap.example.org";
            fault := fun _ => None;
            found := inbox3 |}.

(** The search in Archive is answered with NO. *)
Definition archive_no : World :=
  served {| refuses := fun _ => false;
            fault := fun _ => None;
            found := fun folder =>
              if String.eqb folder "Archive" then ("NO", [PBytes "SEARCH failed"])
              else inbox3 folder |}.

Definition archive_first : Dict Z := [("Archive", 48%Z); ("INBOX", 24%Z)].

(** Fetching message 4, the first of INBOX, raises. *)
Definition fetch_fails : World :=
  served {| refuses := fun _ => false;
            fault := fun c =>
              match c with
              | Fetch "4" => Some (IMAP4_error "FETCH command error: BAD")
              | _ => None
              end;
            found := inbox3 |}.

(** Marking message 9, the second of INBOX, raises. *)
Definition store_fails : World :=
  served {| refuses := fun _ => false;
            fault := fun c =>
              match c with
              | Store "9" => Some (IMAP4_error "STORE command error: BAD")
              | _ => None
              end;
            found := inbox3 |}.

(** The server rejects the password of anna. *)
Definition anna_rejected : World :=
  served {| refuses := fun _ => false;
            fault := fun c =>
              match c with
              | Login "anna" _ => Some (IMAP4_error "LOGIN failed")
              | _ => None
              end;
            found := inbox3 |}.

End Examples.

(** ** Further observations on traces and replies *)

Definition connect_of (ev : Event) : list string :=
  match ev with Connected host _ => [host] | _ => [] end.

(** The hosts a connection was attempted to, in the order of the calls. *)
Definition connects (tr : Trace) : list string := flat_map connect_of tr.

Definition account_record_of (ev : Event) : list LogMsg :=
  match ev with
  | Logged _ (MsgImapError user e) => [MsgImapError user e]
  | Logged _ (MsgMailboxError user e) => [MsgMailboxError user e]
  | _ => []
  end.

(** The records written by the [except] clauses of [process_mailbox]. *)
Definition account_records (tr : Trace) : list LogMsg :=
  flat_map account_record_of tr.

(** [isinstance(response_part, tuple)]. *)
Definition is_tuple (p : Part) : bool :=
  match p with PTuple _ _ => true | _ => false end.

(** The exception the handling of a returned fetch ends with, if any:
    the one of the decoding, or the [TypeError] of [msg['Date']] when no
    part of the reply was a tuple and [msg] is still [None]. *)
Definition unparsed (w : World) (rp : Reply) : option Exn :=
  match fst (parse_parts w None (snd rp) []) with
  | inl e => Some e
  | inr None => Some TypeError
  | inr (Some _) => None
  end.

(** Only whitespace. *)
Fixpoint blank (s : bytes) : bool :=
  match s with
  | EmptyString => true
  | String c s' => is_space c && blank s'
  end.

(** No whitespace at all. *)
Fixpoint spaceless (s : bytes) : bool :=
  match s with
  | EmptyString => true
  | String c s' => negb (is_space c) && spaceless s'
  end.

(** [b' '.join(tokens)]: the form in which a server lists the message
    numbers of a search. *)
Fixpoint unwords (tokens : list bytes) : bytes :=
  match tokens with
  | [] => EmptyString
  | [token] => token
  | token :: rest => String.append token (String " " (unwords rest))
  end.

(** The host of the account [id] of the configuration. *)
Definition host_of (config : Config) (id : string) : string :=
  match getitem (mboxes config) id with
  | Some mbox_config => imap mbox_config
  | None => EmptyString
  end.

(** The events of the [try] block after the connection was opened: calls
    on the connection of the account and the records of the reaps; no
    further connection and no account-level record. *)
Definition in_session (mail : Session) (ev : Event) : Prop :=
  match ev with
  | Commanded s _ _ => s = mail
  | Connected _ _ => False
  | Logged _ (MsgImapError _ _) => False
  | Logged _ (MsgMailboxError _ _) => False
  | Logged _ MsgStart => False
  | Logged _ _ => True
  end.

(** ** The account entry as [json.load] returns it *)

(** [process_mailbox] on the entry itself, a dict from keys to strings,
    where a key may be missing.  The three subscripts of the [try] block
    raise [KeyError] on a missing key: [mbox_config['imap']] before the
    connection is attempted, [mbox_config['username']] before [user] is
    assigned, and [mbox_config['password']] after it, when the arguments
    of [login] are evaluated.  Each of them goes to the [except] clauses
    like any other exception of the block. *)
Definition process_mailbox_entry (w : World) (mbox_config : Dict string)
    (cutoff_config : Dict Z) : M unit :=
  r <- attempt (host <- subscript mbox_config "imap" ;; IMAP4_SSL w host) ;;
  match r with
  | inl e => except_clauses None e
  | inr mail =>
      r <- attempt (subscript mbox_config "username") ;;
      match r with
      | inl e => except_clauses None e
      | inr user =>
          r <- attempt (pw <- subscript mbox_config "password" ;;
                        call w mail (Login user pw) ;;
                        folder_loop w mail user cutoff_config (keys cutoff_config) ;;
                        call w mail Close ;;
                        call w mail Logout ;;
                        ret tt) ;;
          match r with
          | inl e => except_clauses (Some user) e
          | inr _ => ret tt
          end
      end
  end.

(** [user] is still unassigned when the [try] block is left: the entry
    has no host, the connection cannot be opened, or the entry has no
    user name. *)
Definition user_unassigned (w : World) (mbox_config : Dict string) (h : Trace)
  : Prop :=
  match getitem mbox_config "imap" with
  | None => True
  | Some host =>
      match imap4_ssl w h host with
      | inl _ => True
      | inr _ => getitem mbox_config "username" = None
      end
  end.

(** More example worlds, for the replies a server should not send. *)
Module Faults.

(** The search is answered OK with an empty data list. *)
Definition search_no_data : World :=
  Examples.served
    {| Examples.refuses := fun _ => false;
       Examples.fault := fun _ => None;
       Examples.found := fun _ => ("OK", []) |}.

(** Every fetch is answered without a message literal. *)
Definition fetch_no_literal : World := {|
  imap4_ssl := imap4_ssl Examples.healthy;
  command := fun h mail c =>
    match c with
    | Fetch _ => inr ("OK", [PNone])
    | _ => command Examples.healthy h mail c
    end;
  decode_utf8 := decode_utf8 Examples.healthy;
  message_date := message_date Examples.healthy
|}.


(** The server drops the connection at [close]. *)
Definition close_fails : World :=
  Examples.served
    {| Examples.refuses := fun _ => false;
       Examples.fault := fun c =>
         match c with
         | Close => Some (IMAP4_error "socket error: EOF")
         | _ => None
         end;
       Examples.found := Examples.inbox3 |}.

(** An account entry without a user name, and one without a password. *)
Definition no_username : Dict string :=
  [("imap", "imap.example.org"); ("password", "pw")].

Definition no_password : Dict string :=
  [("imap", "imap.example.org"); ("username", "anna")].

End Faults.

(** * Properties *)

(** ** The monad *)

Lemma bind_inv {A B : Type} (m : M A) (f : A -> M B) h r out :
  bind m f h = (r, out) ->
  (exists e, m h = (inl e, out) /\ r = inl e) \/
  (exists a o1 o2, m h = (inr a, o1) /\ f a (h ++ o1) = (r, o2) /\ out = o1 ++ o2).
Proof.
  unfold bind. destruct (m h) as [[e | a] o1].
  - intros H. inversion H; subst. left. eauto.
  - destruct (f a (h ++ o1)) as [r2 o2] eqn:E2. intros H. inversion H; subst.
    right. exists a, o1, o2. auto.
Qed.

Lemma quiet_app tr1 tr2 : quiet tr1 -> quiet tr2 -> quiet (tr1 ++ tr2).
Proof. unfold quiet. intros. apply Forall_app. auto. Qed.

Lemma quiet_In tr ev e : quiet tr -> In ev tr -> raised ev = Some e -> False.
Proof.
  unfold quiet. intros Hq Hin Hr. rewrite Forall_forall in Hq.
  apply Hq in Hin. congruence.
Qed.

Lemma fail_stop_returned {A : Type} (a : A) out : fail_stop (inr a) out -> quiet out.
Proof.
  intros [Hq | (pre & ev & e & _ & _ & _ & Hr)]; [assumption | discriminate].
Qed.

Lemma fail_stop_In {A : Type} (r : Exn + A) out ev e :
  fail_stop r out -> In ev out -> raised ev = Some e ->
  r = inl e /\ exists pre, out = pre ++ [ev] /\ quiet pre.
Proof.
  intros [Hq | (pre & ev0 & e0 & Hout & Hq & Hr0 & Hr)] Hin Hev.
  - exfalso. eapply quiet_In; eauto.
  - subst out. apply in_app_or in Hin. destruct Hin as [Hin | [Heq | []]].
    + exfalso. eapply quiet_In; eauto.
    + subst ev0. split; [congruence | eauto].
Qed.

Lemma fail_stop_retype {A B : Type} (e : Exn) out :
  fail_stop (inl e : Exn + A) out -> fail_stop (inl e : Exn + B) out.
Proof.
  intros [Hq | (pre & ev & e0 & Hout & Hq & Hr0 & Hr)]; [left; assumption |].
  right. exists pre, ev, e0. repeat split; auto. congruence.
Qed.

Lemma FailStop_ret {A : Type} (a : A) : FailStop (ret a).
Proof. intros h r out H. inversion H. left. constructor. Qed.

Lemma FailStop_raise {A : Type} (e : Exn) : FailStop (@raise A e).
Proof. intros h r out H. inversion H. left. constructor. Qed.

Lemma FailStop_logging lvl msg : FailStop (logging lvl msg).
Proof.
  intros h r out H. inversion H. left. repeat constructor.
Qed.

Lemma FailStop_call w mail c : FailStop (call w mail c).
Proof.
  intros h r out H. unfold call in H. inversion H; subst.
  destruct (command w h mail c) as [e | rp] eqn:E.
  - right. exists [], (Commanded mail c (inl e)), e. repeat split; constructor.
  - left. repeat constructor.
Qed.

Lemma FailStop_IMAP4_SSL w host : FailStop (IMAP4_SSL w host).
Proof.
  intros h r out H. unfold IMAP4_SSL in H. inversion H; subst.
  destruct (imap4_ssl w h host) as [e | s] eqn:E.
  - right. exists [], (Connected host (inl e)), e. repeat split; constructor.
  - left. repeat constructor.
Qed.

Lemma FailStop_bind {A B : Type} (m : M A) (f : A -> M B) :
  FailStop m -> (forall a, FailStop (f a)) -> FailStop (bind m f).
Proof.
  intros Hm Hf h r out H.
  apply bind_inv in H. destruct H as [(e & E1 & ->) | (a & o1 & o2 & E1 & E2 & ->)].
  - apply Hm in E1. eapply fail_stop_retype; eauto.
  - apply Hm in E1. apply fail_stop_returned in E1. apply Hf in E2.
    destruct E2 as [Hq | (pre & ev & e & Hout & Hq & Hr0 & Hr)].
    + left. apply quiet_app; assumption.
    + right. exists (o1 ++ pre), ev, e. subst o2. rewrite app_assoc.
      repeat split; auto. apply quiet_app; assumption.
Qed.

Lemma Emits_ret {A : Type} P (a : A) : Emits P (ret a).
Proof. intros h r out H. inversion H. constructor. Qed.

Lemma Emits_raise {A : Type} P (e : Exn) : Emits P (@raise A e).
Proof. intros h r out H. inversion H. constructor. Qed.

Lemma Emits_logging (P : Event -> Prop) lvl msg :
  P (Logged lvl msg) -> Emits P (logging lvl msg).
Proof. intros HP h r out H. inversion H. repeat constructor. assumption. Qed.

Lemma Emits_call (P : Event -> Prop) w mail c :
  (forall r, P (Commanded mail c r)) -> Emits P (call w mail c).
Proof. intros HP h r out H. inversion H. repeat constructor. apply HP. Qed.

Lemma Emits_bind {A B : Type} P (m : M A) (f : A -> M B) :
  Emits P m -> (forall a, Emits P (f a)) -> Emits P (bind m f).
Proof.
  intros Hm Hf h r out H.
  apply bind_inv in H. destruct H as [(e & E1 & ->) | (a & o1 & o2 & E1 & E2 & ->)].
  - eapply Hm; eauto.
  - apply Forall_app. split; [eapply Hm | eapply Hf]; eauto.
Qed.

Lemma Emits_weaken {A : Type} (P Q : Event -> Prop) (m : M A) :
  (forall ev, P ev -> Q ev) -> Emits P m -> Emits Q m.
Proof.
  intros HPQ Hm h r out H. eapply Forall_impl; [apply HPQ | eapply Hm; eauto].
Qed.

Create HintDb effects.
#[export] Hint Resolve FailStop_ret FailStop_raise FailStop_logging FailStop_call
  FailStop_IMAP4_SSL Emits_ret Emits_raise : effects.

(** ** Projections of traces *)

Lemma stores_app tr1 tr2 : stores (tr1 ++ tr2) = stores tr1 ++ stores tr2.
Proof. apply flat_map_app. Qed.

Lemma fetches_app tr1 tr2 : fetches (tr1 ++ tr2) = fetches tr1 ++ fetches tr2.
Proof. apply flat_map_app. Qed.

Lemma expunges_app tr1 tr2 : expunges (tr1 ++ tr2) = expunges tr1 ++ expunges tr2.
Proof. apply flat_map_app. Qed.

Lemma selects_app tr1 tr2 : selects (tr1 ++ tr2) = selects tr1 ++ selects tr2.
Proof. apply flat_map_app. Qed.

Lemma searches_app tr1 tr2 : searches (tr1 ++ tr2) = searches tr1 ++ searches tr2.
Proof. apply flat_map_app. Qed.

Lemma teardowns_app tr1 tr2 :
  teardowns (tr1 ++ tr2) = teardowns tr1 ++ teardowns tr2.
Proof. apply flat_map_app. Qed.

Lemma flat_map_nil_Forall {X Y : Type} (f : X -> list Y) (l : list X) :
  Forall (fun x => f x = []) l -> flat_map f l = [].
Proof.
  induction 1 as [| x l Hx _ IH]; simpl; [reflexivity |].
  rewrite Hx, IH. reflexivity.
Qed.

Lemma marking_projections mail tr :
  Forall (marking mail) tr ->
  selects tr = [] /\ searches tr = [] /\ expunges tr = [] /\ teardowns tr = [].
Proof.
  intros H. repeat split; apply flat_map_nil_Forall;
    (eapply Forall_impl; [| exact H]);
    intros [host r | s c r | lvl m]; simpl; try tauto;
    destruct c; simpl; tauto.
Qed.

(** ** The marking loop *)

Lemma parse_parts_silent w data : forall msg h,
  snd (parse_parts w msg data h) = [].
Proof.
  induction data as [| part rest IH]; intros msg h; simpl; [reflexivity |].
  destruct part as [| b | hd body]; try apply IH.
  destruct (decode_utf8 w body); [apply IH | reflexivity].
Qed.

Lemma announce_announced w mail user folder len i num h r out :
  announce w mail user folder len i num h = (r, out) ->
  announced w mail user folder len i num h r out.
Proof.
  unfold announce. destruct (boundary len i) eqn:Hb.
  - intros H. apply bind_inv in H.
    destruct H as [(e & E1 & ->) | (rp & o1 & o2 & E1 & E2 & ->)].
    + unfold call in E1. inversion E1 as [[Hc Ho]]. rewrite Hc.
      apply announced_fetch_raised; assumption.
    + unfold call in E1. inversion E1 as [[Hc Ho]]. rewrite Hc.
      apply bind_inv in E2.
      destruct E2 as [(e & E2 & ->) | (msg & o3 & o4 & E2 & E3 & ->)].
      * pose proof (parse_parts_silent w (snd rp) None (h ++ o1)) as Hs.
        subst o1. rewrite E2 in Hs. simpl in Hs. subst o2.
        apply announced_unparsed; assumption.
      * pose proof (parse_parts_silent w (snd rp) None (h ++ o1)) as Hs.
        subst o1. rewrite E2 in Hs. simpl in Hs. subst o3.
        destruct msg as [m |]; inversion E3; subst; simpl.
        -- apply announced_dated; assumption.
        -- apply announced_unparsed; assumption.
  - intros H. inversion H. apply announced_plain. assumption.
Qed.

Lemma announced_fail_stop w mail user folder len i num h r out :
  announced w mail user folder len i num h r out -> fail_stop r out.
Proof.
  intros [Hb | e Hb Hc | rp e Hb Hc | rp date Hb Hc].
  - left. repeat constructor.
  - right. exists [], (Commanded mail (Fetch num) (inl e)), e.
    repeat split; constructor.
  - left. repeat constructor.
  - left. repeat constructor.
Qed.

Lemma announced_marking w mail user folder len i num h r out :
  announced w mail user folder len i num h r out -> Forall (marking mail) out.
Proof.
  intros [Hb | e Hb Hc | rp e Hb Hc | rp date Hb Hc]; repeat constructor.
Qed.

Lemma announced_stores w mail user folder len i num h r out :
  announced w mail user folder len i num h r out ->
  stores out = [] /\ fetches out = if boundary len i then [num] else [].
Proof.
  intros [Hb | e Hb Hc | rp e Hb Hc | rp date Hb Hc]; rewrite Hb; auto.
Qed.

(** One round of the loop, by outcome: the announcement raised, the
    store raised, or the loop went on with the next message. *)
Lemma mark_loop_cons_inv w mail user folder len i num rest h r out :
  mark_loop w mail user folder len i (num :: rest) h = (r, out) ->
  exists ra oa,
    announced w mail user folder len i num h ra oa /\
    ((exists e, ra = inl e /\ r = inl e /\ out = oa) \/
     (ra = inr tt /\
      ((exists e, command w (h ++ oa) mail (Store num) = inl e /\ r = inl e /\
                  out = oa ++ [Commanded mail (Store num) (inl e)]) \/
       (exists rp o',
          command w (h ++ oa) mail (Store num) = inr rp /\
          mark_loop w mail user folder len (S i) rest
            ((h ++ oa) ++ [Commanded mail (Store num) (inr rp)]) = (r, o') /\
          out = oa ++ Commanded mail (Store num) (inr rp) :: o')))).
Proof.
  simpl. intros H. apply bind_inv in H.
  destruct H as [(e & E1 & ->) | ([] & oa & o2 & E1 & E2 & ->)].
  - apply announce_announced in E1. exists (inl e), out. split; [assumption |].
    left. eauto.
  - apply announce_announced in E1. exists (inr tt), oa. split; [assumption |].
    right. split; [reflexivity |].
    apply bind_inv in E2.
    destruct E2 as [(e & E2 & ->) | (rp & o3 & o4 & E2 & E3 & ->)].
    + unfold call in E2. inversion E2 as [[Hc Ho]]. rewrite Hc. left. eauto.
    + unfold call in E2. inversion E2 as [[Hc Ho]]. rewrite Hc in *. subst o3.
      right. exists rp, o4. auto.
Qed.

Lemma FailStop_announce w mail user folder len i num :
  FailStop (announce w mail user folder len i num).
Proof.
  intros h r out H. eapply announced_fail_stop, announce_announced, H.
Qed.

Lemma Emits_announce w mail user folder len i num :
  Emits (marking mail) (announce w mail user folder len i num).
Proof.
  intros h r out H. eapply announced_marking, announce_announced, H.
Qed.

Lemma FailStop_mark_loop w mail user folder len messages : forall i,
  FailStop (mark_loop w mail user folder len i messages).
Proof.
  induction messages as [| num rest IH]; intros i; simpl; auto with effects.
  apply FailStop_bind; [apply FailStop_announce | intros _].
  apply FailStop_bind; [apply FailStop_call | intros _; apply IH].
Qed.

Lemma Emits_mark_loop w mail user folder len messages : forall i,
  Emits (marking mail) (mark_loop w mail user folder len i messages).
Proof.
  induction messages as [| num rest IH]; intros i; simpl; auto with effects.
  apply Emits_bind; [apply Emits_announce | intros _].
  apply Emits_bind; [apply Emits_call; reflexivity | intros _; apply IH].
Qed.

(** A loop that runs to its end marked every message, in order, and
    fetched exactly the messages at the boundary indices. *)
Lemma mark_loop_returned w mail user folder len messages : forall i h out,
  mark_loop w mail user folder len i messages h = (inr tt, out) ->
  stores out = messages /\ fetches out = boundary_refs len i messages.
Proof.
  induction messages as [| num rest IH]; intros i h out H.
  - inversion H. auto.
  - apply mark_loop_cons_inv in H.
    destruct H as (ra & oa & Ha & [(e & _ & He & _) | (-> & [(e & _ & He & _) | (rp & o' & Hc & Hl & ->)])]);
      try discriminate.
    apply IH in Hl. destruct Hl as [Hs Hf].
    apply announced_stores in Ha. destruct Ha as [Has Haf].
    rewrite stores_app, fetches_app, Has, Haf. simpl.
    unfold stores, fetches in *. rewrite Hs, Hf.
    split; [reflexivity | destruct (boundary len i); reflexivity].
Qed.

(** A fetch that raises belongs to a boundary message, and exactly the
    messages before that one have been marked. *)
Lemma mark_loop_fetch_raised w mail user folder len messages :
  forall i h r out s num e,
  mark_loop w mail user folder len i messages h = (r, out) ->
  In (Commanded s (Fetch num) (inl e)) out ->
  exists k, nth_error messages k = Some num /\ boundary len (i + k) = true /\
            stores out = firstn k messages.
Proof.
  induction messages as [| n0 rest IH]; intros i h r out s num e H Hin.
  - inversion H; subst. destruct Hin.
  - apply mark_loop_cons_inv in H.
    destruct H as (ra & oa & Ha & [(e0 & -> & -> & ->) | (-> & [(e0 & _ & -> & ->) | (rp & o' & Hc & Hl & ->)])]).
    + inversion Ha; subst; destruct Hin as [Heq | []]; inversion Heq; subst.
      exists 0. rewrite Nat.add_0_r. auto.
    + pose proof (announced_fail_stop _ _ _ _ _ _ _ _ _ _ Ha) as Hq.
      apply fail_stop_returned in Hq.
      apply in_app_or in Hin. destruct Hin as [Hin | [Heq | []]].
      * exfalso. eapply quiet_In; eauto. reflexivity.
      * discriminate.
    + pose proof (announced_fail_stop _ _ _ _ _ _ _ _ _ _ Ha) as Hq.
      apply fail_stop_returned in Hq.
      apply in_app_or in Hin. destruct Hin as [Hin | [Heq | Hin]].
      * exfalso. eapply quiet_In; eauto. reflexivity.
      * discriminate.
      * destruct (IH _ _ _ _ _ _ _ Hl Hin) as (k & Hk & Hb & Hs).
        exists (S k). rewrite Nat.add_succ_r. repeat split; auto.
        apply announced_stores in Ha. destruct Ha as [Has _].
        rewrite stores_app, Has. simpl. unfold stores in *. rewrite Hs. reflexivity.
Qed.

(** A store that raises ends the loop: the messages up to and including
    that one are the ones a store was issued for. *)
Lemma mark_loop_store_raised w mail user folder len messages :
  forall i h r out s num e,
  mark_loop w mail user folder len i messages h = (r, out) ->
  In (Commanded s (Store num) (inl e)) out ->
  exists k, nth_error messages k = Some num /\
            stores out = firstn (S k) messages.
Proof.
  induction messages as [| n0 rest IH]; intros i h r out s num e H Hin.
  - inversion H; subst. destruct Hin.
  - apply mark_loop_cons_inv in H.
    destruct H as (ra & oa & Ha & Hcases).
    pose proof (announced_marking _ _ _ _ _ _ _ _ _ _ Ha) as Hm.
    pose proof (announced_stores _ _ _ _ _ _ _ _ _ _ Ha) as [Has _].
    assert (Hnot : ~ In (Commanded s (Store num) (inl e)) oa).
    { intros Hi. inversion Ha; subst; simpl in Hi;
        repeat (destruct Hi as [Hi | Hi]; try discriminate); assumption. }
    destruct Hcases as [(e0 & -> & -> & ->) | (-> & [(e0 & _ & -> & ->) | (rp & o' & Hc & Hl & ->)])].
    + contradiction.
    + apply in_app_or in Hin. destruct Hin as [Hin | [Heq | []]]; [contradiction |].
      inversion Heq; subst. exists 0. rewrite stores_app, Has. auto.
    + apply in_app_or in Hin. destruct Hin as [Hin | [Heq | Hin]];
        [contradiction | discriminate |].
      destruct (IH _ _ _ _ _ _ _ Hl Hin) as (k & Hk & Hs).
      exists (S k). split; [assumption |].
      rewrite stores_app, Has. simpl. unfold stores in *. rewrite Hs. reflexivity.
Qed.

Lemma boundary_refs_tail len : forall rest i d,
  1 <= i -> i + List.length rest = len ->
  boundary_refs len i rest = match rest with [] => [] | _ => [last rest d] end.
Proof.
  induction rest as [| b rest IH]; intros i d Hi Hlen; [reflexivity |].
  simpl in Hlen. cbn [boundary_refs]. unfold boundary.
  destruct (Nat.eqb_spec i 0) as [-> | _]; [lia |]. cbn [orb].
  destruct rest as [| c rest].
  - simpl in Hlen. destruct (Z.eqb_spec (Z.of_nat i) (Z.of_nat len - 1)); [reflexivity | lia].
  - destruct (Z.eqb_spec (Z.of_nat i) (Z.of_nat len - 1)) as [Heq | _];
      [simpl in Hlen; lia |].
    rewrite (IH (S i) d); [reflexivity | lia | simpl in *; lia].
Qed.

(** The boundary references of a whole result: the first one, and the
    last one when there are at least two. *)
Lemma boundary_refs_whole a rest :
  boundary_refs (List.length (a :: rest)) 0 (a :: rest) =
  match rest with [] => [a] | _ => [a; last rest a] end.
Proof.
  cbn [boundary_refs]. unfold boundary at 1. cbn [Nat.eqb orb].
  rewrite (boundary_refs_tail _ rest 1 a); [| lia | reflexivity].
  destruct rest; reflexivity.
Qed.

(** ** [process_mailbox_folder] *)

Lemma bind_ret {A B : Type} (a : A) (f : A -> M B) h : bind (ret a) f h = f a h.
Proof.
  unfold bind, ret. rewrite app_nil_r. destruct (f a h). reflexivity.
Qed.

Lemma process_found_failed w mail user folder status data h :
  status <> "OK" ->
  process_found w mail user folder (status, data) h =
  (inr tt, [Logged ERROR (MsgSearchFailed user folder status)]).
Proof.
  intros Hs. unfold process_found.
  destruct (String.eqb_spec status "OK"); [contradiction | reflexivity].
Qed.

Lemma process_found_OK w mail user folder d rest h :
  process_found w mail user folder ("OK", PBytes d :: rest) h =
  mark_loop w mail user folder (List.length (bytes_split d)) 0 (bytes_split d) h.
Proof.
  unfold process_found. cbn [String.eqb Ascii.eqb Bool.eqb andb first_split].
  simpl String.eqb.
  exact (bind_ret (bytes_split d)
           (fun messages =>
              mark_loop w mail user folder (List.length messages) 0 messages) h).
Qed.

Lemma FailStop_process_found w mail user folder r :
  FailStop (process_found w mail user folder r).
Proof.
  destruct r as [status data]. unfold process_found.
  destruct (String.eqb status "OK"); auto with effects.
  apply FailStop_bind.
  - destruct data as [| [| b | hd body] rest]; simpl; auto with effects.
  - intros msgs. apply FailStop_mark_loop.
Qed.

Lemma Emits_process_found w mail user folder r :
  Emits (marking mail) (process_found w mail user folder r).
Proof.
  destruct r as [status data]. unfold process_found.
  destruct (String.eqb status "OK").
  - apply Emits_bind.
    + destruct data as [| [| b | hd body] rest]; simpl; auto with effects.
    + intros msgs. apply Emits_mark_loop.
  - apply Emits_logging. exact I.
Qed.

(** The run of [process_mailbox_folder], call by call. *)
Lemma process_mailbox_folder_run w mail user folder cut h :
  process_mailbox_folder w mail user folder cut h =
  match command w h mail (Select folder) with
  | inl e => (inl e, [Commanded mail (Select folder) (inl e)])
  | inr rs =>
      let pre := [Commanded mail (Select folder) (inr rs);
                  Logged INFO (MsgSearch user folder cut)] in
      let c := Search (OLDER (cut * 60 * 60)) in
      match command w (h ++ pre) mail c with
      | inl e => (inl e, pre ++ [Commanded mail c (inl e)])
      | inr rp =>
          let pre2 := pre ++ [Commanded mail c (inr rp)] in
          match process_found w mail user folder rp (h ++ pre2) with
          | (inl e, ob) => (inl e, pre2 ++ ob)
          | (inr _, ob) =>
              let post := pre2 ++ ob ++ [Logged INFO (MsgExpunge user folder)] in
              match command w (h ++ post) mail Expunge with
              | inl e => (inl e, post ++ [Commanded mail Expunge (inl e)])
              | inr rx => (inr tt, post ++ [Commanded mail Expunge (inr rx)])
              end
          end
      end
  end.
Proof.
  unfold process_mailbox_folder, bind, call, logging, ret.
  destruct (command w h mail (Select folder)) as [e | rs]; [reflexivity |].
  cbn zeta. rewrite <- ?app_assoc. cbn [app].
  destruct (command w _ mail (Search _)) as [e | rp]; [reflexivity |].
  rewrite <- ?app_assoc. cbn [app].
  destruct (process_found w mail user folder rp _) as [[e | []] ob]; [reflexivity |].
  rewrite <- ?app_assoc. cbn [app]. rewrite <- ?app_assoc. cbn [app].
  destruct (command w _ mail Expunge) as [e | rx];
    rewrite ?app_nil_r, <- ?app_assoc; reflexivity.
Qed.

Lemma marking_no_search mail ob s c x :
  Forall (marking mail) ob -> In (Commanded s (Search c) x) ob -> False.
Proof.
  intros Hm Hin. rewrite Forall_forall in Hm. apply Hm in Hin. exact Hin.
Qed.

(** A reap whose search returned: the select returned before it, the
    marking block ran on the reply, and the expunge was issued exactly
    when that block did not raise. *)
Lemma reap_after_search w mail user folder cut h r out s c rp :
  process_mailbox_folder w mail user folder cut h = (r, out) ->
  In (Commanded s (Search c) (inr rp)) out ->
  exists rs rb ob,
    let pre :=
      [Commanded mail (Select folder) (inr rs);
       Logged INFO (MsgSearch user folder cut);
       Commanded mail (Search (OLDER (cut * 60 * 60))) (inr rp)] in
    s = mail /\ c = OLDER (cut * 60 * 60) /\
    process_found w mail user folder rp (h ++ pre) = (rb, ob) /\
    match rb with
    | inl e => r = inl e /\ out = pre ++ ob
    | inr _ =>
        exists rx,
          out = pre ++ ob ++ [Logged INFO (MsgExpunge user folder);
                              Commanded mail Expunge rx] /\
          r = match rx with inl e => inl e | inr _ => inr tt end
    end.
Proof.
  rewrite process_mailbox_folder_run.
  destruct (command w h mail (Select folder)) as [e | rs].
  { intros H Hin. inversion H; subst. destruct Hin as [Heq | []]. discriminate. }
  cbn zeta.
  destruct (command w _ mail (Search _)) as [e | rp0].
  { intros H Hin. inversion H; subst. simpl in Hin.
    destruct Hin as [Heq | [Heq | [Heq | []]]]; discriminate. }
  destruct (process_found w mail user folder rp0 _) as [rb ob] eqn:Epf.
  pose proof (Emits_process_found _ _ _ _ _ _ _ _ Epf) as Hm.
  assert (Hrp : forall tl, ~ In (Commanded s (Search c) (inr rp)) tl ->
            In (Commanded s (Search c) (inr rp))
               ([Commanded mail (Select folder) (inr rs);
                 Logged INFO (MsgSearch user folder cut)] ++
                [Commanded mail (Search (OLDER (cut * 60 * 60))) (inr rp0)] ++ tl) ->
            s = mail /\ c = OLDER (cut * 60 * 60) /\ rp = rp0).
  { intros tl Hno Hin. simpl in Hin.
    destruct Hin as [Heq | [Heq | [Heq | Hin]]]; try discriminate; [| contradiction].
    inversion Heq; subst. auto. }
  destruct rb as [e | []].
  - intros H Hin. inversion H; subst.
    apply (Hrp ob) in Hin; [| intros Hi; eapply marking_no_search; eauto].
    destruct Hin as (-> & -> & ->).
    exists rs, (inl e), ob. cbn zeta. repeat split; auto.
  - intros H Hin.
    assert (Hout : exists rx,
              out = ([Commanded mail (Select folder) (inr rs);
                      Logged INFO (MsgSearch user folder cut)] ++
                     [Commanded mail (Search (OLDER (cut * 60 * 60))) (inr rp0)]) ++
                    ob ++ [Logged INFO (MsgExpunge user folder);
                           Commanded mail Expunge rx] /\
              r = match rx with inl e => inl e | inr _ => inr tt end).
    { destruct (command w _ mail Expunge) as [e | rx] eqn:Ex; inversion H; subst.
      - exists (inl e). rewrite <- !app_assoc. auto.
      - exists (inr rx). rewrite <- !app_assoc. auto. }
    destruct Hout as (rx & -> & ->).
    cbn [app] in Hin.
    apply (Hrp (ob ++ [Logged INFO (MsgExpunge user folder);
                       Commanded mail Expunge rx])) in Hin.
    + destruct Hin as (-> & -> & ->).
      exists rs, (inr tt), ob. cbn zeta. repeat split; auto. exists rx. auto.
    + intros Hi. apply in_app_or in Hi. destruct Hi as [Hi | Hi].
      * eapply marking_no_search; eauto.
      * simpl in Hi. destruct Hi as [Heq | [Heq | []]]; discriminate.
Qed.

(** Every run of [process_mailbox_folder] ends in one of three ways. *)
Lemma reap_cases w mail user folder cut h r out :
  process_mailbox_folder w mail user folder cut h = (r, out) ->
  (exists e, r = inl e /\ out = [Commanded mail (Select folder) (inl e)]) \/
  (exists rs e, r = inl e /\
     out = [Commanded mail (Select folder) (inr rs);
            Logged INFO (MsgSearch user folder cut);
            Commanded mail (Search (OLDER (cut * 60 * 60))) (inl e)]) \/
  (exists rp, In (Commanded mail (Search (OLDER (cut * 60 * 60))) (inr rp)) out).
Proof.
  rewrite process_mailbox_folder_run.
  destruct (command w h mail (Select folder)) as [e | rs].
  { intros H. inversion H; subst. left. eauto. }
  cbn zeta.
  destruct (command w _ mail (Search _)) as [e | rp].
  { intros H. inversion H; subst. right. left. eauto. }
  intros H. right. right. exists rp.
  destruct (process_found w mail user folder rp _) as [[e | []] ob].
  - inversion H; subst. simpl. auto.
  - destruct (command w _ mail Expunge); inversion H; subst; simpl; auto.
Qed.

Lemma marking_reaping mail ev : marking mail ev -> reaping mail ev.
Proof.
  destruct ev as [host r | s c r | lvl m]; simpl; [tauto | |].
  - destruct c; simpl; tauto.
  - destruct lvl, m; simpl; tauto.
Qed.

Lemma FailStop_process_mailbox_folder w mail user folder cut :
  FailStop (process_mailbox_folder w mail user folder cut).
Proof.
  unfold process_mailbox_folder.
  repeat (apply FailStop_bind; [auto using FailStop_process_found with effects | intros ?]).
  auto with effects.
Qed.

Lemma Emits_process_mailbox_folder w mail user folder cut :
  Emits (reaping mail) (process_mailbox_folder w mail user folder cut).
Proof.
  unfold process_mailbox_folder.
  apply Emits_bind; [apply Emits_call; reflexivity | intros _].
  apply Emits_bind; [apply Emits_logging; exact I | intros _].
  apply Emits_bind; [apply Emits_call; reflexivity | intros rp].
  apply Emits_bind.
  { eapply Emits_weaken; [apply marking_reaping | apply Emits_process_found]. }
  intros _.
  apply Emits_bind; [apply Emits_logging; exact I | intros _].
  apply Emits_bind; [apply Emits_call; reflexivity | intros _].
  apply Emits_ret.
Qed.

Lemma reaping_projections mail tr :
  Forall (reaping mail) tr -> teardowns tr = [].
Proof.
  intros H. apply flat_map_nil_Forall. eapply Forall_impl; [| exact H].
  intros [host r | s c r | lvl m]; simpl; try tauto.
  destruct c; simpl; tauto.
Qed.

Lemma process_found_command w mail user folder rp h rb ob ev :
  process_found w mail user folder rp h = (rb, ob) ->
  In ev ob -> (forall lvl m, ev <> Logged lvl m) ->
  exists d rest,
    rp = ("OK", PBytes d :: rest) /\
    mark_loop w mail user folder (List.length (bytes_split d)) 0 (bytes_split d) h
    = (rb, ob).
Proof.
  destruct rp as [status data]. intros H Hin Hev.
  destruct (String.eqb_spec status "OK") as [-> | Hne].
  - destruct data as [| [| d | hd body] rest];
      try (inversion H; subst; destruct Hin).
    rewrite process_found_OK in H. eauto.
  - rewrite process_found_failed in H by assumption. inversion H; subst.
    destruct Hin as [<- | []]. exfalso. eapply Hev. reflexivity.
Qed.

(** Finds an event in a trace that computes. *)
Ltac in_trace := vm_compute; repeat (first [left; reflexivity | right]).

(** ** Claims about one folder *)



(** C8: when the search succeeds with no message reference at all, no
    store and no fetch is issued, and the expunge is issued exactly once. *)
Theorem empty_result_commits_once :
  forall w mail user folder cut h r out s c d rest,
    process_mailbox_folder w mail user folder cut h = (r, out) ->
    In (Commanded s (Search c) (inr ("OK", PBytes d :: rest))) out ->
    bytes_split d = [] ->
    stores out = [] /\ fetches out = [] /\ expunges out = [mail].
Proof.
  intros w mail user folder cut h r out s c d rest H Hin Hd.
  destruct (reap_after_search _ _ _ _ _ _ _ _ _ _ _ H Hin)
    as (rs & rb & ob & _ & _ & Hpf & Hout).
  rewrite process_found_OK, Hd in Hpf. inversion Hpf; subst rb ob.
  destruct Hout as (rx & -> & _). auto.
Qed.

Lemma empty_result_commits_once_witness :
  let out := snd (process_mailbox_folder Examples.healthy 0 "anna" "Spam" 1 []) in
  In (Commanded 0 (Search (OLDER 3600)) (inr ("OK", [PBytes ""]))) out /\
  bytes_split "" = [] /\
  stores out = [] /\ fetches out = [] /\ expunges out = [0].
Proof.
  cbn zeta. split; [| split; [reflexivity |]].
  - vm_compute. auto.
  - apply (empty_result_commits_once
             Examples.healthy 0 "anna" "Spam" 1 [] (inr tt) _
             0 (OLDER 3600) "" []);
      [reflexivity | vm_compute; auto | reflexivity].
Defined.

(** The inner loop over the parts of a fetch reply reads no history. *)
Lemma parse_parts_pure w data : forall msg h h',
  parse_parts w msg data h = parse_parts w msg data h'.
Proof.
  induction data as [| [| b | hd body] rest IH]; intros msg h h'; simpl; auto.
  destruct (decode_utf8 w body); [apply IH | reflexivity].
Qed.

(** One round of the loop up to the log call, by the outcome of the
    fetch and of the parsing of its reply. *)
Lemma announce_run w mail user folder len i num h :
  announce w mail user folder len i num h =
  if boundary len i then
    match command w h mail (Fetch num) with
    | inl e => (inl e, [Commanded mail (Fetch num) (inl e)])
    | inr rp =>
        match fst (parse_parts w None (snd rp) []) with
        | inl e => (inl e, [Commanded mail (Fetch num) (inr rp)])
        | inr None => (inl TypeError, [Commanded mail (Fetch num) (inr rp)])
        | inr (Some m) =>
            (inr tt, [Commanded mail (Fetch num) (inr rp);
                      Logged INFO (MsgMarkDated user folder num (getitem_Date w m))])
        end
    end
  else (inr tt, [Logged INFO (MsgMark user folder num)]).
Proof.
  unfold announce. destruct (boundary len i); [| reflexivity].
  unfold bind at 1. unfold call.
  destruct (command w h mail (Fetch num)) as [e | rp]; [reflexivity |].
  cbn zeta. unfold bind.
  pose proof (parse_parts_silent w (snd rp) None
                (h ++ [Commanded mail (Fetch num) (inr rp)])) as Hs.
  rewrite (parse_parts_pure w (snd rp) None [] (h ++ [Commanded mail (Fetch num) (inr rp)])).
  destruct (parse_parts w None (snd rp) _) as [[e | [m |]] o]; cbn [fst snd] in *;
    subst o; reflexivity.
Qed.

(** One round of the loop, as an equation. *)
Lemma mark_loop_cons_run w mail user folder len i num rest h :
  mark_loop w mail user folder len i (num :: rest) h =
  match announce w mail user folder len i num h with
  | (inl e, oa) => (inl e, oa)
  | (inr _, oa) =>
      match command w (h ++ oa) mail (Store num) with
      | inl e => (inl e, oa ++ [Commanded mail (Store num) (inl e)])
      | inr rp =>
          let (r, o') :=
            mark_loop w mail user folder len (S i) rest
              ((h ++ oa) ++ [Commanded mail (Store num) (inr rp)]) in
          (r, oa ++ Commanded mail (Store num) (inr rp) :: o')
      end
  end.
Proof.
  cbn [mark_loop]. unfold bind at 1.
  destruct (announce w mail user folder len i num h) as [[e | []] oa]; [reflexivity |].
  unfold bind, call.
  destruct (command w (h ++ oa) mail (Store num)) as [e | rp]; [reflexivity |].
  cbn zeta.
  destruct (mark_loop w mail user folder len (S i) rest _) as [r o'].
  reflexivity.
Qed.







(** ** The folder loop *)

Lemma folder_loop_cons w mail user cutoff fld cut rest h :
  getitem cutoff fld = Some cut ->
  folder_loop w mail user cutoff (fld :: rest) h =
  match process_mailbox_folder w mail user fld cut h with
  | (inl e, out) => (inl e, out)
  | (inr _, out) =>
      let (r', out') := folder_loop w mail user cutoff rest (h ++ out) in
      (r', out ++ out')
  end.
Proof.
  intros Hget. cbn [folder_loop]. unfold subscript. rewrite Hget, bind_ret.
  reflexivity.
Qed.

Lemma getitem_keys {V : Type} (d : Dict V) k :
  In k (keys d) -> exists v, getitem d k = Some v.
Proof.
  induction d as [| [k' v'] d IH]; simpl; [intros [] |].
  intros Hin. destruct (String.eqb_spec k k') as [-> | Hne]; [eauto |].
  destruct Hin as [Heq | Hin]; [congruence | auto].
Qed.

Lemma FailStop_folder_loop w mail user cutoff flds :
  FailStop (folder_loop w mail user cutoff flds).
Proof.
  induction flds as [| fld rest IH]; simpl; auto with effects.
  apply FailStop_bind.
  - unfold subscript. destruct (getitem cutoff fld); auto with effects.
  - intros cut. apply FailStop_bind;
      [apply FailStop_process_mailbox_folder | intros _; apply IH].
Qed.

Lemma Emits_folder_loop w mail user cutoff flds :
  Emits (reaping mail) (folder_loop w mail user cutoff flds).
Proof.
  induction flds as [| fld rest IH]; simpl; auto with effects.
  apply Emits_bind.
  - unfold subscript. destruct (getitem cutoff fld); auto with effects.
  - intros cut. apply Emits_bind;
      [apply Emits_process_mailbox_folder | intros _; apply IH].
Qed.

(** A reap issues exactly one select, for its own folder. *)
Lemma reap_selects w mail user folder cut h r out :
  process_mailbox_folder w mail user folder cut h = (r, out) ->
  selects out = [folder].
Proof.
  intros H. destruct (reap_cases _ _ _ _ _ _ _ _ H)
    as [(e & _ & ->) | [(rs & e & _ & ->) | (rp & Hin)]]; try reflexivity.
  destruct (reap_after_search _ _ _ _ _ _ _ _ _ _ _ H Hin)
    as (rs & rb & ob & _ & _ & Hpf & Hout).
  apply Emits_process_found, marking_projections in Hpf.
  destruct Hpf as (Hsel & _).
  destruct rb as [e | u].
  - destruct Hout as [_ ->]. rewrite selects_app, Hsel. reflexivity.
  - destruct Hout as (rx & -> & _). rewrite !selects_app, Hsel. reflexivity.
Qed.

(** The folders attempted by the loop: all of them, in order, when no
    reap raises; otherwise those up to and including the first one whose
    reap raises, and the exception of that reap is the outcome. *)
Lemma folder_loop_selects w mail user cutoff : forall flds h r out,
  (forall fld, In fld flds -> exists cut, getitem cutoff fld = Some cut) ->
  folder_loop w mail user cutoff flds h = (r, out) ->
  match r with
  | inr _ => selects out = flds
  | inl e =>
      exists pre fld post cut before outf,
        flds = pre ++ fld :: post /\
        getitem cutoff fld = Some cut /\
        process_mailbox_folder w mail user fld cut (h ++ before) = (inl e, outf) /\
        out = before ++ outf /\
        selects out = pre ++ [fld]
  end.
Proof.
  induction flds as [| fld rest IH]; intros h r out Hkeys H.
  - inversion H. reflexivity.
  - destruct (Hkeys fld (or_introl eq_refl)) as [cut Hcut].
    rewrite (folder_loop_cons _ _ _ _ _ _ _ _ Hcut) in H.
    destruct (process_mailbox_folder w mail user fld cut h) as [[e | u] o1] eqn:Er.
    + inversion H; subst. exists [], fld, rest, cut, [], out.
      rewrite app_nil_r. repeat split; auto.
      simpl. eapply reap_selects; eauto.
    + destruct (folder_loop w mail user cutoff rest (h ++ o1)) as [r' o'] eqn:El.
      inversion H; subst.
      apply reap_selects in Er.
      apply IH in El; [| intros f Hf; apply Hkeys; right; assumption].
      destruct r as [e | u'].
      * destruct El as (pre & f & post & c & before & outf & -> & Hc & Hr & -> & Hs).
        exists (fld :: pre), f, post, c, (o1 ++ before), outf.
        rewrite <- !app_assoc. repeat split; auto.
        -- rewrite app_assoc. assumption.
        -- rewrite selects_app, Er, Hs. reflexivity.
      * rewrite selects_app, Er, El. reflexivity.
Qed.

(** ** Claims about one folder, continued *)

(** C4, as the code has it: when the search returns a status other than
    OK, the reap emits exactly the select, the search, the error record
    and then the expunge: nothing is fetched or marked, but the expunge is
    issued, once.  The reap returns unless that expunge raises, and then
    the folder loop goes on with the next folder. *)
Theorem failed_search_marks_nothing_but_expunges :
  forall w mail user cutoff folder cut others h r out s c status data,
    getitem cutoff folder = Some cut ->
    process_mailbox_folder w mail user folder cut h = (r, out) ->
    In (Commanded s (Search c) (inr (status, data))) out ->
    status <> "OK" ->
    (exists rs rx,
       out = [Commanded mail (Select folder) (inr rs);
              Logged INFO (MsgSearch user folder cut);
              Commanded mail (Search (OLDER (cut * 60 * 60))) (inr (status, data));
              Logged ERROR (MsgSearchFailed user folder status);
              Logged INFO (MsgExpunge user folder);
              Commanded mail Expunge rx] /\
       r = match rx with inl e => inl e | inr _ => inr tt end) /\
    stores out = [] /\ fetches out = [] /\ expunges out = [mail] /\
    (r = inr tt ->
     folder_loop w mail user cutoff (folder :: others) h =
     let (r', out') := folder_loop w mail user cutoff others (h ++ out) in
     (r', out ++ out')).
Proof.
  intros w mail user cutoff folder cut others h r out s c status data
    Hcut H Hin Hst.
  destruct (reap_after_search _ _ _ _ _ _ _ _ _ _ _ H Hin)
    as (rs & rb & ob & _ & _ & Hpf & Hout).
  rewrite process_found_failed in Hpf by assumption.
  inversion Hpf; subst rb ob. destruct Hout as (rx & -> & ->).
  split; [exists rs, rx; split; reflexivity |].
  repeat split.
  intros Hr. rewrite (folder_loop_cons _ _ _ _ _ _ _ _ Hcut), H.
  destruct rx; [discriminate | reflexivity].
Qed.

Lemma failed_search_marks_nothing_but_expunges_witness :
  let w := Examples.archive_no in
  let out := snd (process_mailbox_folder w 0 "anna" "Archive" 48 []) in
  getitem Examples.archive_first "Archive" = Some 48%Z /\
  In (Commanded 0 (Search (OLDER 172800)) (inr ("NO", [PBytes "SEARCH failed"]))) out /\
  "NO" <> "OK" /\
  stores out = [] /\ fetches out = [] /\ expunges out = [0].
Proof.
  cbn zeta. split; [reflexivity |]. split; [vm_compute; auto |].
  split; [discriminate |].
  assert (Hno : "NO" <> "OK") by discriminate.
  destruct (failed_search_marks_nothing_but_expunges
              Examples.archive_no 0 "anna" Examples.archive_first "Archive" 48
              ["INBOX"] [] (inr tt) _ 0 (OLDER 172800) "NO"
              [PBytes "SEARCH failed"] eq_refl eq_refl
              (or_intror (or_intror (or_introl eq_refl))) Hno)
    as (_ & Hs & Hf & He & _).
  auto.
Defined.

(** C4 as stated fails: after a search answered with NO, the expunge of
    that folder is still issued. *)
Lemma expunge_issued_after_failed_search :
  process_mailbox_folder Examples.archive_no 0 "anna" "Archive" 48 [] =
  (inr tt,
   [Commanded 0 (Select "Archive") (inr ("OK", [PBytes ""]));
    Logged INFO (MsgSearch "anna" "Archive" 48);
    Commanded 0 (Search (OLDER 172800)) (inr ("NO", [PBytes "SEARCH failed"]));
    Logged ERROR (MsgSearchFailed "anna" "Archive" "NO");
    Logged INFO (MsgExpunge "anna" "Archive");
    Commanded 0 Expunge (inr ("OK", [PBytes ""]))]) /\
  expunges (snd (process_mailbox_folder Examples.archive_no 0 "anna" "Archive" 48 []))
  <> [].
Proof. split; [reflexivity | discriminate]. Qed.

(** C5, as the code has it: a fetch that raises is not recovered.  The
    exception leaves [process_mailbox_folder], the failing fetch is the
    last event of the reap, no expunge is issued, and the stores issued
    are exactly those of the references before the boundary message whose
    fetch raised: that message and the following ones stay unmarked. *)
Theorem fetch_exception_aborts_reap :
  forall w mail user folder cut h r out s num e,
    process_mailbox_folder w mail user folder cut h = (r, out) ->
    In (Commanded s (Fetch num) (inl e)) out ->
    r = inl e /\
    (exists before, out = before ++ [Commanded s (Fetch num) (inl e)]) /\
    expunges out = [] /\
    exists d rest k,
      In (Commanded mail (Search (OLDER (cut * 60 * 60)))
            (inr ("OK", PBytes d :: rest))) out /\
      nth_error (bytes_split d) k = Some num /\
      boundary (List.length (bytes_split d)) k = true /\
      stores out = firstn k (bytes_split d).
Proof.
  intros w mail user folder cut h r out s num e H Hin.
  destruct (fail_stop_In _ _ _ e (FailStop_process_mailbox_folder _ _ _ _ _ _ _ _ H)
              Hin eq_refl) as (-> & before & Hbefore & _).
  split; [reflexivity |]. split; [eauto |].
  destruct (reap_cases _ _ _ _ _ _ _ _ H)
    as [(e0 & _ & ->) | [(rs & e0 & _ & ->) | (rp & Hs)]].
  { destruct Hin as [Heq | []]. discriminate. }
  { simpl in Hin. destruct Hin as [Heq | [Heq | [Heq | []]]]; discriminate. }
  destruct (reap_after_search _ _ _ _ _ _ _ _ _ _ _ H Hs)
    as (rs & rb & ob & _ & _ & Hpf & Hout).
  assert (Hob : In (Commanded s (Fetch num) (inl e)) ob).
  { destruct rb as [e0 | u].
    - destruct Hout as [_ ->]. simpl in Hin.
      destruct Hin as [Heq | [Heq | [Heq | Hin]]]; try discriminate. assumption.
    - destruct Hout as (rx & -> & _). simpl in Hin.
      destruct Hin as [Heq | [Heq | [Heq | Hin]]]; try discriminate.
      apply in_app_or in Hin. destruct Hin as [Hin | Hin]; [assumption |].
      simpl in Hin. destruct Hin as [Heq | [Heq | []]]; discriminate. }
  destruct (fail_stop_In _ _ _ e (FailStop_process_found _ _ _ _ _ _ _ _ Hpf)
              Hob eq_refl) as (-> & _).
  destruct Hout as [_ ->].
  pose proof (Emits_process_found _ _ _ _ _ _ _ _ Hpf) as Hm.
  apply marking_projections in Hm. destruct Hm as (_ & _ & Hex & _).
  split; [rewrite expunges_app, Hex; reflexivity |].
  destruct (process_found_command _ _ _ _ _ _ _ _ _ Hpf Hob)
    as (d & rest & -> & Hloop); [discriminate |].
  destruct (mark_loop_fetch_raised _ _ _ _ _ _ _ _ _ _ _ _ _ Hloop Hob)
    as (k & Hk & Hb & Hst).
  exists d, rest, k. split; [simpl; auto |]. split; [assumption |].
  split; [assumption |]. rewrite stores_app, Hst. reflexivity.
Qed.

Lemma fetch_exception_aborts_reap_witness :
  let e := IMAP4_error "FETCH command error: BAD" in
  let out := snd (process_mailbox_folder Examples.fetch_fails 0 "anna" "INBOX" 24 []) in
  In (Commanded 0 (Fetch "4") (inl e)) out /\
  fst (process_mailbox_folder Examples.fetch_fails 0 "anna" "INBOX" 24 []) = inl e /\
  expunges out = [].
Proof.
  cbn zeta. split; [vm_compute; auto |].
  destruct (fetch_exception_aborts_reap
              Examples.fetch_fails 0 "anna" "INBOX" 24 []
              (fst (process_mailbox_folder Examples.fetch_fails 0 "anna" "INBOX" 24 []))
              (snd (process_mailbox_folder Examples.fetch_fails 0 "anna" "INBOX" 24 []))
              0 "4" (IMAP4_error "FETCH command error: BAD")
              eq_refl (or_intror (or_intror (or_intror (or_introl eq_refl)))))
    as (Hr & _ & Hex & _).
  auto.
Defined.

(** C5 as stated fails: the fetch of the first message raises, and
    neither that message nor a later one is marked, and the folder is
    not expunged. *)
Lemma fetch_failure_leaves_messages_unmarked :
  process_mailbox_folder Examples.fetch_fails 0 "anna" "INBOX" 24 [] =
  (inl (IMAP4_error "FETCH command error: BAD"),
   [Commanded 0 (Select "INBOX") (inr ("OK", [PBytes ""]));
    Logged INFO (MsgSearch "anna" "INBOX" 24);
    Commanded 0 (Search (OLDER 86400)) (inr ("OK", [PBytes "4 9 17"]));
    Commanded 0 (Fetch "4") (inl (IMAP4_error "FETCH command error: BAD"))]) /\
  stores (snd (process_mailbox_folder Examples.fetch_fails 0 "anna" "INBOX" 24 []))
  = [] /\
  expunges (snd (process_mailbox_folder Examples.fetch_fails 0 "anna" "INBOX" 24 []))
  = [].
Proof. repeat split. Qed.

(** ** [process_mailbox] *)

(** The run of the [try] block after the connection, call by call. *)
Lemma session_body_run w mail user cfg cutoff h :
  session_body w mail user cfg cutoff h =
  let login := Login user (password cfg) in
  match command w h mail login with
  | inl e => (inl e, [Commanded mail login (inl e)])
  | inr rl =>
      let pre := [Commanded mail login (inr rl)] in
      match folder_loop w mail user cutoff (keys cutoff) (h ++ pre) with
      | (inl e, ol) => (inl e, pre ++ ol)
      | (inr _, ol) =>
          match command w (h ++ pre ++ ol) mail Close with
          | inl e => (inl e, pre ++ ol ++ [Commanded mail Close (inl e)])
          | inr rc =>
              let closed := pre ++ ol ++ [Commanded mail Close (inr rc)] in
              match command w (h ++ closed) mail Logout with
              | inl e => (inl e, closed ++ [Commanded mail Logout (inl e)])
              | inr ro => (inr tt, closed ++ [Commanded mail Logout (inr ro)])
              end
          end
      end
  end.
Proof.
  unfold session_body, bind, call, ret.
  destruct (command w h mail (Login _ _)) as [e | rl]; [reflexivity |].
  cbn zeta.
  destruct (folder_loop w mail user cutoff (keys cutoff) _) as [[e | []] ol];
    [reflexivity |].
  rewrite <- ?app_assoc. cbn [app].
  destruct (command w _ mail Close) as [e | rc]; [reflexivity |].
  rewrite <- ?app_assoc. cbn [app]. rewrite <- ?app_assoc. cbn [app].
  destruct (command w _ mail Logout) as [e | ro];
    rewrite ?app_nil_r, <- ?app_assoc; reflexivity.
Qed.

(** The run of [process_mailbox]: a failed connection ends in the
    [UnboundLocalError] of the handler; after a connection every
    exception of the block is recorded and the function returns. *)
Lemma process_mailbox_run w cfg cutoff h :
  process_mailbox w cfg cutoff h =
  match imap4_ssl w h (imap cfg) with
  | inl e => (inl (UnboundLocalError "user"), [Connected (imap cfg) (inl e)])
  | inr mail =>
      let pre := [Connected (imap cfg) (inr mail)] in
      match session_body w mail (username cfg) cfg cutoff (h ++ pre) with
      | (inl e, ob) =>
          (inr tt, pre ++ ob ++ [Logged ERROR (account_error (username cfg) e)])
      | (inr _, ob) => (inr tt, pre ++ ob)
      end
  end.
Proof.
  unfold process_mailbox, bind, attempt, IMAP4_SSL, except_clauses, raise,
    logging, ret.
  destruct (imap4_ssl w h (imap cfg)) as [e | mail]; [reflexivity |].
  cbn zeta.
  destruct (session_body w mail (username cfg) cfg cutoff _) as [[e | []] ob];
    rewrite ?app_nil_r; reflexivity.
Qed.

Lemma FailStop_session_body w mail user cfg cutoff :
  FailStop (session_body w mail user cfg cutoff).
Proof.
  unfold session_body.
  repeat (apply FailStop_bind;
          [auto using FailStop_folder_loop with effects | intros ?]).
  auto with effects.
Qed.

(** The teardown calls of the [try] block, by the outcome of the folder
    loop and of [close]. *)
Lemma session_body_teardowns w mail user cfg cutoff h rl :
  command w h mail (Login user (password cfg)) = inr rl ->
  let pre := [Commanded mail (Login user (password cfg)) (inr rl)] in
  teardowns (snd (session_body w mail user cfg cutoff h)) =
  match folder_loop w mail user cutoff (keys cutoff) (h ++ pre) with
  | (inl _, _) => []
  | (inr _, ol) =>
      (mail, Close) ::
      match command w (h ++ pre ++ ol) mail Close with
      | inl _ => []
      | inr _ => [(mail, Logout)]
      end
  end.
Proof.
  intros Hl. cbn zeta. rewrite session_body_run. cbn zeta. rewrite Hl.
  destruct (folder_loop w mail user cutoff (keys cutoff) _) as [rloop ol] eqn:El.
  pose proof (Emits_folder_loop _ _ _ _ _ _ _ _ El) as Hm.
  apply reaping_projections in Hm.
  destruct rloop as [e | u].
  - cbn [snd]. rewrite teardowns_app, Hm. reflexivity.
  - destruct (command w _ mail Close) as [e | rc].
    + cbn [snd]. rewrite !teardowns_app, Hm. reflexivity.
    + cbn zeta. destruct (command w _ mail Logout); cbn [snd];
        rewrite !teardowns_app, Hm; reflexivity.
Qed.

(** A store that raises inside a reap: the reap raises the same
    exception, the store is its last event, and between the select of the
    folder and that store there is no other select and no expunge. *)
Lemma reap_store_raised w mail user folder cut h r out s num e :
  process_mailbox_folder w mail user folder cut h = (r, out) ->
  In (Commanded s (Store num) (inl e)) out ->
  r = inl e /\ s = mail /\
  exists rs during,
    out = Commanded mail (Select folder) (inr rs)
          :: during ++ [Commanded mail (Store num) (inl e)] /\
    selects during = [] /\ expunges during = [].
Proof.
  intros H Hin.
  destruct (fail_stop_In _ _ _ e (FailStop_process_mailbox_folder _ _ _ _ _ _ _ _ H)
              Hin eq_refl) as (-> & _).
  split; [reflexivity |].
  destruct (reap_cases _ _ _ _ _ _ _ _ H)
    as [(e0 & _ & ->) | [(rs & e0 & _ & ->) | (rp & Hs)]].
  { destruct Hin as [Heq | []]. discriminate. }
  { simpl in Hin. destruct Hin as [Heq | [Heq | [Heq | []]]]; discriminate. }
  destruct (reap_after_search _ _ _ _ _ _ _ _ _ _ _ H Hs)
    as (rs & rb & ob & _ & _ & Hpf & Hout).
  assert (Hob : In (Commanded s (Store num) (inl e)) ob).
  { destruct rb as [e0 | u].
    - destruct Hout as [_ ->]. simpl in Hin.
      destruct Hin as [Heq | [Heq | [Heq | Hin]]]; try discriminate. assumption.
    - destruct Hout as (rx & -> & _). simpl in Hin.
      destruct Hin as [Heq | [Heq | [Heq | Hin]]]; try discriminate.
      apply in_app_or in Hin. destruct Hin as [Hin | Hin]; [assumption |].
      simpl in Hin. destruct Hin as [Heq | [Heq | []]]; discriminate. }
  destruct (fail_stop_In _ _ _ e (FailStop_process_found _ _ _ _ _ _ _ _ Hpf)
              Hob eq_refl) as (-> & pre & -> & _).
  destruct Hout as [_ ->].
  pose proof (Emits_process_found _ _ _ _ _ _ _ _ Hpf) as Hm.
  assert (Hs' : s = mail).
  { rewrite Forall_forall in Hm. apply (Hm _ Hob). }
  subst s. split; [reflexivity |].
  apply marking_projections in Hm. destruct Hm as (Hsel & _ & Hex & _).
  rewrite selects_app in Hsel. apply app_eq_nil in Hsel. destruct Hsel as [Hsel _].
  rewrite expunges_app in Hex. apply app_eq_nil in Hex. destruct Hex as [Hex _].
  exists rs,
    ([Logged INFO (MsgSearch user folder cut);
      Commanded mail (Search (OLDER (cut * 60 * 60))) (inr rp)] ++ pre).
  rewrite selects_app, expunges_app, Hsel, Hex.
  repeat split.
Qed.

Lemma folder_loop_store_raised w mail user cutoff : forall flds h r out s num e,
  folder_loop w mail user cutoff flds h = (r, out) ->
  In (Commanded s (Store num) (inl e)) out ->
  r = inl e /\ s = mail /\
  exists before folder rs during,
    In folder flds /\
    out = before ++ Commanded mail (Select folder) (inr rs)
                 :: during ++ [Commanded mail (Store num) (inl e)] /\
    selects during = [] /\ expunges during = [].
Proof.
  induction flds as [| fld rest IH]; intros h r out s num e H Hin.
  - inversion H; subst. destruct Hin.
  - cbn [folder_loop] in H. apply bind_inv in H.
    destruct H as [(e0 & E1 & ->) | (cut & o0 & o1 & E0 & E1 & ->)].
    { unfold subscript in E1. destruct (getitem cutoff fld); inversion E1; subst.
      destruct Hin. }
    assert (o0 = []) as ->.
    { unfold subscript in E0. destruct (getitem cutoff fld); inversion E0; auto. }
    rewrite app_nil_r in E1. cbn [app] in *.
    apply bind_inv in E1.
    destruct E1 as [(e0 & E1 & ->) | ([] & o2 & o3 & E1 & E2 & ->)].
    + destruct (reap_store_raised _ _ _ _ _ _ _ _ _ _ _ E1 Hin)
        as (He & Hs & rs & during & -> & Hsel & Hex).
      split; [assumption |]. split; [assumption |].
      exists [], fld, rs, during. repeat split; auto. left. reflexivity.
    + pose proof (FailStop_process_mailbox_folder _ _ _ _ _ _ _ _ E1) as Hq.
      apply fail_stop_returned in Hq.
      apply in_app_or in Hin. destruct Hin as [Hin | Hin].
      { exfalso. eapply quiet_In; eauto. reflexivity. }
      destruct (IH _ _ _ _ _ _ E2 Hin)
        as (He & Hs & before & folder & rs & during & Hf & -> & Hsel & Hex).
      split; [assumption |]. split; [assumption |].
      exists (o2 ++ before), folder, rs, during.
      rewrite <- app_assoc. repeat split; auto. right. assumption.
Qed.

(** ** Claims about one account *)

(** C10: when a store raises, it is the last call of the account.  After
    the select of its folder nothing was expunged and no other folder
    was selected; after the store only the account-level error record
    follows; [close] and [logout] are never called; and
    [process_mailbox] returns, the exception caught. *)
Theorem store_exception_aborts_account :
  forall w cfg cutoff h res out s num e,
    process_mailbox w cfg cutoff h = (res, out) ->
    In (Commanded s (Store num) (inl e)) out ->
    res = inr tt /\
    teardowns out = [] /\
    exists before folder rs during,
      In folder (keys cutoff) /\
      out = before ++ Commanded s (Select folder) (inr rs)
            :: during
            ++ [Commanded s (Store num) (inl e);
                Logged ERROR (account_error (username cfg) e)] /\
      selects during = [] /\ expunges during = [].
Proof.
  intros w cfg cutoff h res out s num e H Hin.
  rewrite process_mailbox_run in H.
  destruct (imap4_ssl w h (imap cfg)) as [e0 | mail].
  { inversion H; subst. destruct Hin as [Heq | []]. discriminate. }
  cbn zeta in H.
  destruct (session_body w mail (username cfg) cfg cutoff _) as [rb ob] eqn:Eb.
  assert (Hob : In (Commanded s (Store num) (inl e)) ob).
  { destruct rb as [e0 | u]; inversion H; subst; simpl in Hin;
      destruct Hin as [Heq | Hin]; try discriminate; [| assumption].
    apply in_app_or in Hin. destruct Hin as [Hin | [Heq | []]];
      [assumption | discriminate]. }
  destruct (fail_stop_In _ _ _ e (FailStop_session_body _ _ _ _ _ _ _ _ Eb)
              Hob eq_refl) as (-> & _).
  inversion H; subst res out. clear H. split; [reflexivity |].
  rewrite session_body_run in Eb. cbn zeta in Eb.
  destruct (command w _ mail (Login _ _)) as [e0 | rl].
  { inversion Eb; subst. destruct Hob as [Heq | []]. discriminate. }
  destruct (folder_loop w mail (username cfg) cutoff (keys cutoff) _)
    as [rloop ol] eqn:El.
  assert (Hol : In (Commanded s (Store num) (inl e)) ol).
  { destruct rloop as [e0 | u].
    - inversion Eb; subst. destruct Hob as [Heq | Hob]; [discriminate | assumption].
    - exfalso.
      pose proof (FailStop_folder_loop _ _ _ _ _ _ _ _ El) as Hq.
      apply fail_stop_returned in Hq.
      assert (Hno : forall tl,
                (forall ev, In ev tl -> ev <> Commanded s (Store num) (inl e)) ->
                ~ In (Commanded s (Store num) (inl e))
                    ([Commanded mail (Login (username cfg) (password cfg)) (inr rl)]
                     ++ ol ++ tl)).
      { intros tl Htl Hi. cbn [app] in Hi. cbn [In] in Hi.
        destruct Hi as [Heq | Hi]; [discriminate |].
        apply in_app_or in Hi. destruct Hi as [Hi | Hi].
        - exact (quiet_In _ _ e Hq Hi eq_refl).
        - exact (Htl _ Hi eq_refl). }
      destruct (command w _ mail Close) as [e0 | rc].
      + inversion Eb; subst. eapply Hno; [| exact Hob].
        intros ev [<- | []]. discriminate.
      + cbn zeta in Eb.
        destruct (command w _ mail Logout); inversion Eb; subst.
        rewrite <- !app_assoc in Hob. eapply Hno; [| exact Hob].
        intros ev [<- | [<- | []]]; discriminate. }
  destruct (folder_loop_store_raised _ _ _ _ _ _ _ _ _ _ _ El Hol)
    as (-> & -> & before & folder & rs & during & Hf & -> & Hsel & Hex).
  inversion Eb; subst ob. clear Eb.
  pose proof (Emits_folder_loop _ _ _ _ _ _ _ _ El) as Hm.
  apply reaping_projections in Hm.
  split.
  - unfold teardowns in *. cbn [app flat_map teardown_of].
    rewrite flat_map_app, Hm. reflexivity.
  - exists ([Connected (imap cfg) (inr mail);
             Commanded mail (Login (username cfg) (password cfg)) (inr rl)]
            ++ before), folder, rs, during.
    repeat split; auto.
    cbn [app]. rewrite <- !app_assoc. cbn [app]. rewrite <- !app_assoc.
    reflexivity.
Qed.

Lemma store_exception_aborts_account_witness :
  let e := IMAP4_error "STORE command error: BAD" in
  let run := process_mailbox Examples.store_fails Examples.anna Examples.two_folders [] in
  In (Commanded 0 (Store "9") (inl e)) (snd run) /\
  fst run = inr tt /\ teardowns (snd run) = [].
Proof.
  cbn zeta. split; [in_trace |].
  destruct (store_exception_aborts_account
              Examples.store_fails Examples.anna Examples.two_folders []
              (fst (process_mailbox Examples.store_fails Examples.anna
                      Examples.two_folders []))
              (snd (process_mailbox Examples.store_fails Examples.anna
                      Examples.two_folders []))
              0 "9" (IMAP4_error "STORE command error: BAD") eq_refl)
    as (Hr & Ht & _).
  - in_trace.
  - auto.
Defined.

(** C2, as the code has it: after a successful connection and login the
    teardown calls are decided by the folder loop.  When the loop ends
    without an exception, [close] is called once, followed by one
    [logout] when [close] returned; when the loop raises, neither is
    called. *)
Theorem teardown_once_unless_loop_raises :
  forall w cfg cutoff h mail rl,
    imap4_ssl w h (imap cfg) = inr mail ->
    command w (h ++ [Connected (imap cfg) (inr mail)]) mail
      (Login (username cfg) (password cfg)) = inr rl ->
    let logged_in :=
      (h ++ [Connected (imap cfg) (inr mail)]) ++
      [Commanded mail (Login (username cfg) (password cfg)) (inr rl)] in
    teardowns (snd (process_mailbox w cfg cutoff h)) =
    match folder_loop w mail (username cfg) cutoff (keys cutoff) logged_in with
    | (inl _, _) => []
    | (inr _, ol) =>
        (mail, Close) ::
        match command w (logged_in ++ ol) mail Close with
        | inl _ => []
        | inr _ => [(mail, Logout)]
        end
    end.
Proof.
  intros w cfg cutoff h mail rl Hc Hl. cbn zeta.
  pose proof (session_body_teardowns w mail (username cfg) cfg cutoff _ rl Hl) as Ht.
  cbn zeta in Ht.
  rewrite process_mailbox_run, Hc. cbn zeta.
  destruct (session_body w mail (username cfg) cfg cutoff _) as [rb ob].
  cbn [snd] in Ht.
  assert (Hout : teardowns
            (snd (let pre := [Connected (imap cfg) (inr mail)] in
                  match rb with
                  | inl e =>
                      (inr tt : Exn + unit,
                       pre ++ ob ++ [Logged ERROR (account_error (username cfg) e)])
                  | inr _ => (inr tt, pre ++ ob)
                  end)) = teardowns ob).
  { destruct rb as [e | u]; cbn [snd]; rewrite !teardowns_app; cbn;
      rewrite ?app_nil_r; reflexivity. }
  cbn zeta in Hout.
  destruct rb as [e | u]; cbn [snd] in *; rewrite Hout, Ht;
    destruct (folder_loop w mail (username cfg) cutoff (keys cutoff) _) as [[e' | u'] ol];
    try reflexivity; rewrite <- ?app_assoc; reflexivity.
Qed.

Lemma teardown_once_unless_loop_raises_witness :
  imap4_ssl Examples.healthy [] (imap Examples.anna) = inr 0 /\
  command Examples.healthy [Connected (imap Examples.anna) (inr 0)] 0
    (Login "anna" "pw") = inr ("OK", [PBytes ""]) /\
  teardowns (snd (process_mailbox Examples.healthy Examples.anna
                    Examples.two_folders []))
  = [(0, Close); (0, Logout)].
Proof.
  split; [reflexivity |]. split; [reflexivity |].
  rewrite (teardown_once_unless_loop_raises
             Examples.healthy Examples.anna Examples.two_folders [] 0
             ("OK", [PBytes ""]) eq_refl eq_refl).
  reflexivity.
Defined.

(** C2 as stated fails: the connection and the login succeed, the first
    search raises, and neither [close] nor [logout] is called before
    [process_mailbox] returns. *)
Lemma no_teardown_after_exception :
  process_mailbox Examples.search_aborts Examples.anna Examples.two_folders [] =
  (inr tt,
   [Connected "imap.example.org" (inr 0);
    Commanded 0 (Login "anna" "pw") (inr ("OK", [PBytes ""]));
    Commanded 0 (Select "INBOX") (inr ("OK", [PBytes ""]));
    Logged INFO (MsgSearch "anna" "INBOX" 24);
    Commanded 0 (Search (OLDER 86400)) (inl (IMAP4_error "socket error: EOF"));
    Logged ERROR (MsgImapError "anna" (IMAP4_error "socket error: EOF"))]) /\
  teardowns (snd (process_mailbox Examples.search_aborts Examples.anna
                    Examples.two_folders [])) = [].
Proof. split; reflexivity. Qed.

(** The loop over [pre ++ fld :: post] when it gets through [pre] and the
    reap of [fld] raises: the loop raises there, and [post] is not run. *)
Lemma folder_loop_stops w mail user cutoff fld cut post e outf :
  forall pre h before,
  getitem cutoff fld = Some cut ->
  folder_loop w mail user cutoff pre h = (inr tt, before) ->
  process_mailbox_folder w mail user fld cut (h ++ before) = (inl e, outf) ->
  folder_loop w mail user cutoff (pre ++ fld :: post) h = (inl e, before ++ outf).
Proof.
  induction pre as [| f pre IH]; intros h before Hcut Hpre Hr.
  - inversion Hpre; subst. rewrite app_nil_r in Hr. cbn [app].
    rewrite (folder_loop_cons _ _ _ _ _ _ _ _ Hcut), Hr. reflexivity.
  - destruct (getitem cutoff f) as [c |] eqn:Hc.
    + cbn [app]. rewrite (folder_loop_cons _ _ _ _ _ _ _ _ Hc).
      rewrite (folder_loop_cons _ _ _ _ _ _ _ _ Hc) in Hpre.
      destruct (process_mailbox_folder w mail user f c h) as [[e1 | u] o1];
        [discriminate Hpre |].
      destruct (folder_loop w mail user cutoff pre (h ++ o1)) as [r' o'] eqn:El.
      inversion Hpre; subst r' before. clear Hpre.
      rewrite app_assoc in Hr.
      rewrite (IH _ _ Hcut El Hr), app_assoc. reflexivity.
    + cbn [folder_loop] in Hpre. unfold subscript in Hpre. rewrite Hc in Hpre.
      discriminate.
Qed.

(** When the loop raises, it got through the folders before one whose
    reap raised that exception. *)
Lemma folder_loop_raised w mail user cutoff : forall flds h e out,
  (forall fld, In fld flds -> exists cut, getitem cutoff fld = Some cut) ->
  folder_loop w mail user cutoff flds h = (inl e, out) ->
  exists pre fld post cut before outf,
    flds = pre ++ fld :: post /\
    getitem cutoff fld = Some cut /\
    folder_loop w mail user cutoff pre h = (inr tt, before) /\
    process_mailbox_folder w mail user fld cut (h ++ before) = (inl e, outf) /\
    out = before ++ outf.
Proof.
  induction flds as [| fld rest IH]; intros h e out Hkeys H.
  - inversion H.
  - destruct (Hkeys fld (or_introl eq_refl)) as [cut Hcut].
    rewrite (folder_loop_cons _ _ _ _ _ _ _ _ Hcut) in H.
    destruct (process_mailbox_folder w mail user fld cut h) as [[e1 | []] o1] eqn:Er.
    + inversion H; subst. exists [], fld, rest, cut, [], out.
      rewrite app_nil_r. repeat split; auto.
    + destruct (folder_loop w mail user cutoff rest (h ++ o1)) as [r' o'] eqn:El.
      inversion H; subst r' out. clear H.
      apply IH in El; [| intros f Hf; apply Hkeys; right; assumption].
      destruct El as (pre & f & post & c & before & outf & -> & Hc & Hp & Hr & ->).
      exists (fld :: pre), f, post, c, (o1 ++ before), outf.
      rewrite <- !app_assoc in *. repeat split; auto.
      rewrite (folder_loop_cons _ _ _ _ _ _ _ _ Hcut), Er, Hp. reflexivity.
Qed.

(** The folder loop writes no account-level record. *)
Lemma reaping_account_records mail tr :
  Forall (reaping mail) tr -> account_records tr = [].
Proof.
  intros H. apply flat_map_nil_Forall. eapply Forall_impl; [| exact H].
  intros [host r | s c r | lvl m]; simpl; try tauto.
  destruct m; simpl; tauto.
Qed.

(** C1, as the code has it: after a successful connection and login the
    folders are attempted in the order of the configuration, and
    [process_mailbox] returns.  A reap that raises ends the folder loop:
    when the loop got through the folders [pre] and the reap of the next
    folder raises [e], the loop raises [e], that folder is the last one
    attempted, the folders [post] after it are not, and [e] is recorded
    once, at account level, as the last event.  When no reap raises, every
    configured folder is attempted.  Conversely, whenever the loop raises,
    it is the exception of the reap of the last folder attempted. *)
Theorem folder_exception_ends_folder_loop :
  forall w cfg cutoff h mail rl,
    imap4_ssl w h (imap cfg) = inr mail ->
    command w (h ++ [Connected (imap cfg) (inr mail)]) mail
      (Login (username cfg) (password cfg)) = inr rl ->
    let logged_in :=
      (h ++ [Connected (imap cfg) (inr mail)]) ++
      [Commanded mail (Login (username cfg) (password cfg)) (inr rl)] in
    let run := process_mailbox w cfg cutoff h in
    let reap := process_mailbox_folder w mail (username cfg) in
    let loop := folder_loop w mail (username cfg) cutoff in
    fst run = inr tt /\
    (forall pre folder post cut before e outf,
       keys cutoff = pre ++ folder :: post ->
       getitem cutoff folder = Some cut ->
       loop pre logged_in = (inr tt, before) ->
       reap folder cut (logged_in ++ before) = (inl e, outf) ->
       loop (keys cutoff) logged_in = (inl e, before ++ outf) /\
       selects (snd run) = pre ++ [folder] /\
       snd run =
         Connected (imap cfg) (inr mail)
         :: Commanded mail (Login (username cfg) (password cfg)) (inr rl)
         :: before ++ outf ++ [Logged ERROR (account_error (username cfg) e)] /\
       account_records (snd run) = [account_error (username cfg) e]) /\
    ((forall pre folder post cut before,
        keys cutoff = pre ++ folder :: post ->
        getitem cutoff folder = Some cut ->
        loop pre logged_in = (inr tt, before) ->
        fst (reap folder cut (logged_in ++ before)) = inr tt) ->
     fst (loop (keys cutoff) logged_in) = inr tt /\
     selects (snd run) = keys cutoff) /\
    match loop (keys cutoff) logged_in with
    | (inr _, _) => selects (snd run) = keys cutoff
    | (inl e, _) =>
        exists pre folder post cut before outf,
          keys cutoff = pre ++ folder :: post /\
          getitem cutoff folder = Some cut /\
          loop pre logged_in = (inr tt, before) /\
          reap folder cut (logged_in ++ before) = (inl e, outf) /\
          selects (snd run) = pre ++ [folder] /\
          last (snd run) (Logged INFO MsgStart)
          = Logged ERROR (account_error (username cfg) e)
    end.
Proof.
  intros w cfg cutoff h mail rl Hc Hl. cbn zeta.
  assert (Hkeys : forall flds, incl flds (keys cutoff) ->
            forall fld, In fld flds -> exists cut, getitem cutoff fld = Some cut).
  { intros flds Hi fld Hf. apply getitem_keys, Hi, Hf. }
  assert (Hrun : forall e ol,
            folder_loop w mail (username cfg) cutoff (keys cutoff)
              ((h ++ [Connected (imap cfg) (inr mail)]) ++
               [Commanded mail (Login (username cfg) (password cfg)) (inr rl)])
            = (inl e, ol) ->
            process_mailbox w cfg cutoff h =
            (inr tt,
             Connected (imap cfg) (inr mail)
             :: Commanded mail (Login (username cfg) (password cfg)) (inr rl)
             :: ol ++ [Logged ERROR (account_error (username cfg) e)])).
  { intros e ol El. rewrite process_mailbox_run, Hc. cbn zeta.
    rewrite session_body_run. cbn zeta. rewrite Hl, El. reflexivity. }
  assert (Hstop : forall pre folder post cut before e outf,
            keys cutoff = pre ++ folder :: post ->
            getitem cutoff folder = Some cut ->
            folder_loop w mail (username cfg) cutoff pre
              ((h ++ [Connected (imap cfg) (inr mail)]) ++
               [Commanded mail (Login (username cfg) (password cfg)) (inr rl)])
            = (inr tt, before) ->
            process_mailbox_folder w mail (username cfg) folder cut
              (((h ++ [Connected (imap cfg) (inr mail)]) ++
                [Commanded mail (Login (username cfg) (password cfg)) (inr rl)])
               ++ before) = (inl e, outf) ->
            folder_loop w mail (username cfg) cutoff (keys cutoff)
              ((h ++ [Connected (imap cfg) (inr mail)]) ++
               [Commanded mail (Login (username cfg) (password cfg)) (inr rl)])
            = (inl e, before ++ outf) /\
            selects (before ++ outf) = pre ++ [folder]).
  { intros pre folder post cut before e outf Hk Hcut Hpre Hr. split.
    - rewrite Hk. eapply folder_loop_stops; eauto.
    - rewrite selects_app, (reap_selects _ _ _ _ _ _ _ _ Hr).
      assert (Hin : incl pre (keys cutoff)).
      { rewrite Hk. intros f Hf. apply in_or_app. left. exact Hf. }
      pose proof (folder_loop_selects _ _ _ _ _ _ _ _ (Hkeys _ Hin) Hpre) as Hs.
      cbn in Hs. rewrite Hs. reflexivity. }
  assert (Hsel : forall tr e,
            selects (Connected (imap cfg) (inr mail)
                     :: Commanded mail (Login (username cfg) (password cfg)) (inr rl)
                     :: tr ++ [Logged ERROR (account_error (username cfg) e)])
            = selects tr).
  { intros tr e. unfold selects. cbn [flat_map select_of app].
    rewrite flat_map_app. cbn. apply app_nil_r. }
  split; [| split; [| split]].
  - rewrite process_mailbox_run, Hc. cbn zeta.
    destruct (session_body w mail (username cfg) cfg cutoff _) as [[e | u] ob];
      reflexivity.
  - intros pre folder post cut before e outf Hk Hcut Hpre Hr.
    destruct (Hstop _ _ _ _ _ _ _ Hk Hcut Hpre Hr) as [El Hs].
    pose proof (Emits_folder_loop _ _ _ _ _ _ _ _ El) as Hm.
    apply reaping_account_records in Hm.
    rewrite (Hrun _ _ El). cbn [snd].
    split; [exact El |]. split; [rewrite Hsel; exact Hs |].
    split; [rewrite <- app_assoc; reflexivity |].
    unfold account_records in *. cbn [flat_map account_record_of app].
    rewrite flat_map_app, Hm. cbn [flat_map app].
    unfold account_error. destruct (is_IMAP4_error e); reflexivity.
  - intros Hall.
    destruct (folder_loop w mail (username cfg) cutoff (keys cutoff) _)
      as [[e | []] ol] eqn:El.
    + exfalso.
      destruct (folder_loop_raised _ _ _ _ _ _ _ _
                  (Hkeys _ (incl_refl _)) El)
        as (pre & folder & post & cut & before & outf & Hk & Hcut & Hpre & Hr & _).
      specialize (Hall _ _ _ _ _ Hk Hcut Hpre). rewrite Hr in Hall. discriminate.
    + split; [reflexivity |].
      pose proof (folder_loop_selects _ _ _ _ _ _ _ _
                    (Hkeys _ (incl_refl _)) El) as Hs.
      cbn in Hs.
      rewrite process_mailbox_run, Hc. cbn zeta.
      rewrite session_body_run. cbn zeta. rewrite Hl, El.
      destruct (command w _ mail Close) as [e | rc].
      * cbn [snd]. rewrite !selects_app, Hs. cbn. rewrite ?app_nil_r. reflexivity.
      * cbn zeta. destruct (command w _ mail Logout) as [e | ro];
          cbn [snd]; rewrite !selects_app, Hs; cbn; rewrite ?app_nil_r; reflexivity.
  - destruct (folder_loop w mail (username cfg) cutoff (keys cutoff) _)
      as [[e | []] ol] eqn:El.
    + destruct (folder_loop_raised _ _ _ _ _ _ _ _
                  (Hkeys _ (incl_refl _)) El)
        as (pre & folder & post & cut & before & outf & Hk & Hcut & Hpre & Hr & ->).
      destruct (Hstop _ _ _ _ _ _ _ Hk Hcut Hpre Hr) as [_ Hs].
      exists pre, folder, post, cut, before, outf.
      rewrite (Hrun _ _ eq_refl). cbn [snd].
      repeat split; auto.
      * rewrite Hsel. exact Hs.
      * rewrite !app_comm_cons. apply last_last.
    + pose proof (folder_loop_selects _ _ _ _ _ _ _ _
                    (Hkeys _ (incl_refl _)) El) as Hs.
      cbn in Hs.
      rewrite process_mailbox_run, Hc. cbn zeta.
      rewrite session_body_run. cbn zeta. rewrite Hl, El.
      destruct (command w _ mail Close) as [e | rc].
      * cbn [snd]. rewrite !selects_app, Hs. cbn. rewrite ?app_nil_r. reflexivity.
      * cbn zeta. destruct (command w _ mail Logout) as [e | ro];
          cbn [snd]; rewrite !selects_app, Hs; cbn; rewrite ?app_nil_r; reflexivity.
Qed.

Lemma folder_exception_ends_folder_loop_witness :
  let e := IMAP4_error "SELECT command error: BAD" in
  let run := process_mailbox Examples.no_such_folder Examples.anna
               Examples.missing_first [] in
  imap4_ssl Examples.no_such_folder [] (imap Examples.anna) = inr 0 /\
  command Examples.no_such_folder [Connected (imap Examples.anna) (inr 0)] 0
    (Login "anna" "pw") = inr ("OK", [PBytes ""]) /\
  keys Examples.missing_first = ["Missing"; "INBOX"] /\
  fst run = inr tt /\
  selects (snd run) = ["Missing"] /\
  account_records (snd run) = [MsgImapError "anna" e].
Proof.
  cbn zeta.
  split; [reflexivity |]. split; [reflexivity |]. split; [reflexivity |].
  pose proof (folder_exception_ends_folder_loop
                Examples.no_such_folder Examples.anna Examples.missing_first
                [] 0 ("OK", [PBytes ""]) eq_refl eq_refl) as H.
  cbn zeta in H. destruct H as (Hret & Hstop & _).
  split; [exact Hret |].
  destruct (Hstop [] "Missing" ["INBOX"] 24%Z []
              (IMAP4_error "SELECT command error: BAD")
              [Commanded 0 (Select "Missing")
                 (inl (IMAP4_error "SELECT command error: BAD"))]
              eq_refl eq_refl eq_refl eq_refl) as (_ & Hs & _ & Ha).
  split; [exact Hs | exact Ha].
Defined.

(** C1 as stated fails: the select of the first folder raises, and the
    second configured folder, INBOX, is never attempted; the account
    ends with the account-level record. *)
Lemma select_failure_skips_remaining_folders :
  process_mailbox Examples.no_such_folder Examples.anna Examples.missing_first [] =
  (inr tt,
   [Connected "imap.example.org" (inr 0);
    Commanded 0 (Login "anna" "pw") (inr ("OK", [PBytes ""]));
    Commanded 0 (Select "Missing") (inl (IMAP4_error "SELECT command error: BAD"));
    Logged ERROR (MsgImapError "anna" (IMAP4_error "SELECT command error: BAD"))]) /\
  keys Examples.missing_first = ["Missing"; "INBOX"] /\
  selects (snd (process_mailbox Examples.no_such_folder Examples.anna
                  Examples.missing_first [])) = ["Missing"].
Proof. repeat split. Qed.

(** ** Claims about the account loop *)

Lemma mbox_loop_cons w config mbox cfg others h :
  getitem (mboxes config) mbox = Some cfg ->
  mbox_loop w config (mbox :: others) h =
  match process_mailbox w cfg (cutofftime config) h with
  | (inl e, out) => (inl e, out)
  | (inr _, out) =>
      let (r', out') := mbox_loop w config others (h ++ out) in
      (r', out ++ out')
  end.
Proof.
  intros Hget. cbn [mbox_loop]. unfold subscript. rewrite Hget, bind_ret.
  reflexivity.
Qed.

(** A connection that cannot be opened: the handler reads [user] before
    it was assigned, so [process_mailbox] raises [UnboundLocalError] and
    records nothing. *)
Lemma connection_failure_raises w cfg cutoff h e :
  imap4_ssl w h (imap cfg) = inl e ->
  process_mailbox w cfg cutoff h =
  (inl (UnboundLocalError "user"), [Connected (imap cfg) (inl e)]).
Proof. intros Hc. rewrite process_mailbox_run, Hc. reflexivity. Qed.

(** C3 fails on the code for a connection failure: the host of the first
    of two accounts refuses the connection; the exception of the handler
    leaves [process_mailbox] and [main], no error is recorded, and the
    second account is never attempted. *)
Theorem connection_failure_escapes_main :
  main Examples.first_host_down Examples.two_accounts [] =
  (inl (UnboundLocalError "user"),
   [Logged INFO MsgStart;
    Connected "imap.example.org" (inl (OSError "Connection refused"))]).
Proof. reflexivity. Qed.

(** C6: when the login of an account raises, [process_mailbox] records
    the error and returns, and the account loop goes on with the
    remaining accounts exactly as it would from there: the next thing
    that happens is the connection attempt of the next account. *)
Theorem auth_failure_does_not_stop_later_accounts :
  forall w config mbox cfg others h mail e,
    getitem (mboxes config) mbox = Some cfg ->
    imap4_ssl w h (imap cfg) = inr mail ->
    command w (h ++ [Connected (imap cfg) (inr mail)]) mail
      (Login (username cfg) (password cfg)) = inl e ->
    let failed :=
      [Connected (imap cfg) (inr mail);
       Commanded mail (Login (username cfg) (password cfg)) (inl e);
       Logged ERROR (account_error (username cfg) e)] in
    mbox_loop w config (mbox :: others) h =
    (let (r, out) := mbox_loop w config others (h ++ failed) in
     (r, failed ++ out)) /\
    forall next cfg' later,
      others = next :: later ->
      getitem (mboxes config) next = Some cfg' ->
      exists r' tl,
        snd (mbox_loop w config others (h ++ failed))
        = Connected (imap cfg') r' :: tl.
Proof.
  intros w config mbox cfg others h mail e Hget Hc Hl. cbn zeta. split.
  - rewrite (mbox_loop_cons _ _ _ _ _ _ Hget), process_mailbox_run, Hc.
    cbn zeta. rewrite session_body_run. cbn zeta. rewrite Hl. reflexivity.
  - intros next cfg' later -> Hnext.
    rewrite (mbox_loop_cons _ _ _ _ _ _ Hnext), process_mailbox_run.
    destruct (imap4_ssl w _ (imap cfg')) as [e' | mail'].
    + exists (inl e'), []. reflexivity.
    + cbn zeta.
      destruct (session_body w mail' (username cfg') cfg' (cutofftime config) _)
        as [[e' | u] ob];
        destruct (mbox_loop w config later _) as [r' out'];
        eexists; eexists; reflexivity.
Qed.

Lemma auth_failure_does_not_stop_later_accounts_witness :
  let w := Examples.anna_rejected in
  let e := IMAP4_error "LOGIN failed" in
  getitem (mboxes Examples.two_accounts) "a" = Some Examples.anna /\
  imap4_ssl w [] (imap Examples.anna) = inr 0 /\
  command w [Connected (imap Examples.anna) (inr 0)] 0 (Login "anna" "pw") = inl e /\
  exists r' tl,
    snd (mbox_loop w Examples.two_accounts ["b"]
           [Connected (imap Examples.anna) (inr 0);
            Commanded 0 (Login "anna" "pw") (inl e);
            Logged ERROR (account_error "anna" e)])
    = Connected (imap Examples.boris) r' :: tl.
Proof.
  cbn zeta. split; [reflexivity |]. split; [reflexivity |]. split; [reflexivity |].
  exact (proj2 (auth_failure_does_not_stop_later_accounts
                  Examples.anna_rejected Examples.two_accounts "a" Examples.anna
                  ["b"] [] 0 (IMAP4_error "LOGIN failed") eq_refl eq_refl eq_refl)
               "b" Examples.boris [] eq_refl eq_refl).
Defined.

(** ** The scenario of two folders

    INBOX with three old messages and an empty Spam folder: three stores
    and two fetches, then an expunge, in INBOX; only the expunge in Spam;
    one [close] and one [logout]. *)
Example two_folders_run :
  process_mailbox Examples.healthy Examples.anna Examples.two_folders [] =
  (inr tt,
   [Connected "imap.example.org" (inr 0);
    Commanded 0 (Login "anna" "pw") (inr ("OK", [PBytes ""]));
    Commanded 0 (Select "INBOX") (inr ("OK", [PBytes ""]));
    Logged INFO (MsgSearch "anna" "INBOX" 24);
    Commanded 0 (Search (OLDER 86400)) (inr ("OK", [PBytes "4 9 17"]));
    Commanded 0 (Fetch "4") (inr ("OK", [PTuple "RFC822" "4"; PBytes ")"]));
    Logged INFO (MsgMarkDated "anna" "INBOX" "4" (Some "4"));
    Commanded 0 (Store "4") (inr ("OK", [PBytes ""]));
    Logged INFO (MsgMark "anna" "INBOX" "9");
    Commanded 0 (Store "9") (inr ("OK", [PBytes ""]));
    Commanded 0 (Fetch "17") (inr ("OK", [PTuple "RFC822" "17"; PBytes ")"]));
    Logged INFO (MsgMarkDated "anna" "INBOX" "17" (Some "17"));
    Commanded 0 (Store "17") (inr ("OK", [PBytes ""]));
    Logged INFO (MsgExpunge "anna" "INBOX");
    Commanded 0 Expunge (inr ("OK", [PBytes ""]));
    Commanded 0 (Select "Spam") (inr ("OK", [PBytes ""]));
    Logged INFO (MsgSearch "anna" "Spam" 1);
    Commanded 0 (Search (OLDER 3600)) (inr ("OK", [PBytes ""]));
    Logged INFO (MsgExpunge "anna" "Spam");
    Commanded 0 Expunge (inr ("OK", [PBytes ""]));
    Commanded 0 Close (inr ("OK", [PBytes ""]));
    Commanded 0 Logout (inr ("OK", [PBytes ""]))]).
Proof. reflexivity. Qed.

(** [bytes.split()] on a reply with runs of blanks and a line end. *)
Example bytes_split_blanks :
  bytes_split (String " " (String "1" (String "2" (String "009"
    (String " " (String "3" (String "010" EmptyString))))))) = ["12"; "3"].
Proof. reflexivity. Qed.

(** * Further properties of the code *)

(** ** The marking loop, call by call *)

Lemma In_firstn {X : Type} (x : X) : forall k l, In x (firstn k l) -> In x l.
Proof.
  induction k as [| k IH]; intros [| y l]; simpl; try tauto.
  intros [-> | H]; auto.
Qed.

(** However the loop ends, the stores issued are for an initial segment
    of the messages and the fetches for an initial segment of the
    boundary messages. *)
Lemma mark_loop_prefixes w mail user folder len messages : forall i h r out,
  mark_loop w mail user folder len i messages h = (r, out) ->
  (exists k, stores out = firstn k messages) /\
  (exists j, fetches out = firstn j (boundary_refs len i messages)).
Proof.
  induction messages as [| num rest IH]; intros i h r out H.
  - inversion H; subst. split; exists 0; reflexivity.
  - apply mark_loop_cons_inv in H.
    destruct H as (ra & oa & Ha & Hcases).
    pose proof (announced_stores _ _ _ _ _ _ _ _ _ _ Ha) as [Has Haf].
    cbn [boundary_refs].
    destruct Hcases as [(e & _ & _ & ->) | (_ & [(e & _ & _ & ->) | (rp & o' & _ & Hl & ->)])].
    + split; [exists 0; rewrite Has; reflexivity |].
      rewrite Haf. destruct (boundary len i); [exists 1 | exists 0]; reflexivity.
    + rewrite stores_app, fetches_app, Has, Haf. cbn. rewrite app_nil_r.
      split; [exists 1; reflexivity |].
      destruct (boundary len i); [exists 1 | exists 0]; reflexivity.
    + apply IH in Hl. destruct Hl as [[k Hk] [j Hj]].
      rewrite stores_app, fetches_app, Has, Haf.
      change (Commanded mail (Store num) (inr rp) :: o')
        with ([Commanded mail (Store num) (inr rp)] ++ o').
      rewrite stores_app, fetches_app, Hk, Hj. cbn.
      split; [exists (S k); reflexivity |].
      destruct (boundary len i); [exists (S j) | exists j]; reflexivity.
Qed.

(** The marking block on any search reply: stores and fetches are taken
    from the references of the reply, in order. *)
Lemma process_found_prefixes w mail user folder rp h rb ob :
  process_found w mail user folder rp h = (rb, ob) ->
  (stores ob = [] /\ fetches ob = []) \/
  exists d rest k j,
    rp = ("OK", PBytes d :: rest) /\
    stores ob = firstn k (bytes_split d) /\
    fetches ob =
      firstn j (boundary_refs (List.length (bytes_split d)) 0 (bytes_split d)).
Proof.
  destruct rp as [status data]. intros H.
  destruct (String.eqb_spec status "OK") as [-> | Hne].
  - destruct data as [| [| d | hd body] rest];
      try (inversion H; subst; left; split; reflexivity).
    rewrite process_found_OK in H.
    apply mark_loop_prefixes in H. destruct H as [[k Hk] [j Hj]].
    right. exists d, rest, k, j. auto.
  - rewrite process_found_failed in H by assumption. inversion H; subst.
    left. split; reflexivity.
Qed.

(** The shape of every run of [process_mailbox_folder]: what was emitted
    around the marking block. *)
Lemma reap_projections w mail user folder cut h r out :
  process_mailbox_folder w mail user folder cut h = (r, out) ->
  (stores out = [] /\ fetches out = [] /\ expunges out = [] /\
   forall c rp, ~ In (Commanded mail (Search c) (inr rp)) out) \/
  exists rp rb ob hb,
    In (Commanded mail (Search (OLDER (cut * 60 * 60))) (inr rp)) out /\
    process_found w mail user folder rp hb = (rb, ob) /\
    stores out = stores ob /\ fetches out = fetches ob /\
    expunges out = match rb with inl _ => [] | inr _ => [mail] end.
Proof.
  intros H.
  destruct (reap_cases _ _ _ _ _ _ _ _ H)
    as [(e & _ & ->) | [(rs & e & _ & ->) | (rp & Hin)]].
  - left. repeat split; try reflexivity.
    intros c rp [Heq | []]. discriminate.
  - left. repeat split; try reflexivity.
    intros c rp Hi. simpl in Hi.
    destruct Hi as [Heq | [Heq | [Heq | []]]]; discriminate.
  - right.
    destruct (reap_after_search _ _ _ _ _ _ _ _ _ _ _ H Hin)
      as (rs & rb & ob & _ & _ & Hpf & Hout).
    pose proof (Emits_process_found _ _ _ _ _ _ _ _ Hpf) as Hm.
    apply marking_projections in Hm. destruct Hm as (_ & _ & Hex & _).
    eexists rp, rb, ob, _. split; [exact Hin |]. split; [exact Hpf |].
    destruct rb as [e | u].
    + destruct Hout as [_ ->].
      rewrite stores_app, fetches_app, expunges_app, Hex. repeat split.
    + destruct Hout as (rx & -> & _).
      rewrite !stores_app, !fetches_app, !expunges_app, Hex.
      cbn. rewrite !app_nil_r. repeat split.
Qed.

(** ** What a reap never does *)

(** X1: a store is only ever issued for a reference that the search of
    the same reap returned with status OK, and the stores issued are an
    initial segment of the references of that reply, in its order. *)
Theorem stores_only_what_the_search_returned :
  forall w mail user folder cut h r out num,
    process_mailbox_folder w mail user folder cut h = (r, out) ->
    In num (stores out) ->
    exists d rest k,
      In (Commanded mail (Search (OLDER (cut * 60 * 60)))
            (inr ("OK", PBytes d :: rest))) out /\
      stores out = firstn k (bytes_split d) /\
      In num (bytes_split d).
Proof.
  intros w mail user folder cut h r out num H Hnum.
  destruct (reap_projections _ _ _ _ _ _ _ _ H)
    as [(Hs & _) | (rp & rb & ob & hb & Hin & Hpf & Hs & _)].
  - rewrite Hs in Hnum. destruct Hnum.
  - rewrite Hs in *.
    destruct (process_found_prefixes _ _ _ _ _ _ _ _ Hpf)
      as [(Hs0 & _) | (d & rest & k & j & -> & Hk & _)].
    + rewrite Hs0 in Hnum. destruct Hnum.
    + exists d, rest, k. split; [exact Hin |]. split; [exact Hk |].
      rewrite Hk in Hnum. eapply In_firstn; eauto.
Qed.

Lemma stores_only_what_the_search_returned_witness :
  let out := snd (process_mailbox_folder Examples.store_fails 0 "anna" "INBOX" 24 []) in
  In "9" (stores out) /\
  exists d rest k,
    In (Commanded 0 (Search (OLDER (24 * 60 * 60)))
          (inr ("OK", PBytes d :: rest))) out /\
    stores out = firstn k (bytes_split d) /\
    In "9" (bytes_split d).
Proof.
  cbn zeta. split; [vm_compute; auto |].
  apply (stores_only_what_the_search_returned
           Examples.store_fails 0 "anna" "INBOX" 24 []
           (inl (IMAP4_error "STORE command error: BAD")) _ "9");
    [reflexivity | vm_compute; auto].
Defined.

(** X2: whatever the outcomes of the calls, a reap fetches at most two
    messages, and a fetched message is the first or the last reference of
    the OK reply of its search. *)
Theorem fetches_only_boundary_messages :
  forall w mail user folder cut h,
    let out := snd (process_mailbox_folder w mail user folder cut h) in
    List.length (fetches out) <= 2 /\
    forall num, In num (fetches out) ->
      exists d rest first others,
        In (Commanded mail (Search (OLDER (cut * 60 * 60)))
              (inr ("OK", PBytes d :: rest))) out /\
        bytes_split d = first :: others /\
        (num = first \/ num = last others first).
Proof.
  intros w mail user folder cut h.
  destruct (process_mailbox_folder w mail user folder cut h) as [r out] eqn:H.
  cbn [snd]. cbn zeta.
  destruct (reap_projections _ _ _ _ _ _ _ _ H)
    as [(_ & Hf & _) | (rp & rb & ob & hb & Hin & Hpf & _ & Hf & _)].
  { rewrite Hf. split; [simpl; lia | intros num []]. }
  rewrite Hf.
  destruct (process_found_prefixes _ _ _ _ _ _ _ _ Hpf)
    as [(_ & Hf0) | (d & rest & k & j & -> & _ & Hj)].
  { rewrite Hf0. split; [simpl; lia | intros num []]. }
  rewrite Hj.
  destruct (bytes_split d) as [| first others] eqn:Ed.
  { rewrite firstn_nil. split; [simpl; lia | intros num []]. }
  rewrite boundary_refs_whole.
  split.
  - rewrite length_firstn. destruct others; simpl; lia.
  - intros num Hnum. apply In_firstn in Hnum.
    exists d, rest, first, others. split; [exact Hin |]. split; [exact Ed |].
    destruct others; simpl in Hnum; intuition.
Qed.

(** X3: an expunge is issued at most once in a reap, as its last call,
    and only after the select and the search of the folder both returned
    and the marking block ended without an exception; no store follows
    it. *)
Theorem expunge_only_after_the_marking_block :
  forall w mail user folder cut h r out s rx,
    process_mailbox_folder w mail user folder cut h = (r, out) ->
    In (Commanded s Expunge rx) out ->
    s = mail /\ expunges out = [mail] /\
    exists rs rp ob,
      process_found w mail user folder rp
        (h ++ [Commanded mail (Select folder) (inr rs);
               Logged INFO (MsgSearch user folder cut);
               Commanded mail (Search (OLDER (cut * 60 * 60))) (inr rp)])
      = (inr tt, ob) /\
      out = [Commanded mail (Select folder) (inr rs);
             Logged INFO (MsgSearch user folder cut);
             Commanded mail (Search (OLDER (cut * 60 * 60))) (inr rp)]
            ++ ob ++ [Logged INFO (MsgExpunge user folder);
                      Commanded mail Expunge rx].
Proof.
  intros w mail user folder cut h r out s rx H Hin.
  destruct (reap_cases _ _ _ _ _ _ _ _ H)
    as [(e & _ & ->) | [(rs & e & _ & ->) | (rp & Hs)]].
  { destruct Hin as [Heq | []]. discriminate. }
  { simpl in Hin. destruct Hin as [Heq | [Heq | [Heq | []]]]; discriminate. }
  destruct (reap_after_search _ _ _ _ _ _ _ _ _ _ _ H Hs)
    as (rs & rb & ob & _ & _ & Hpf & Hout).
  pose proof (Emits_process_found _ _ _ _ _ _ _ _ Hpf) as Hm.
  assert (Hno : ~ In (Commanded s Expunge rx) ob).
  { intros Hi. rewrite Forall_forall in Hm. apply (Hm _ Hi). }
  apply marking_projections in Hm. destruct Hm as (_ & _ & Hex & _).
  destruct rb as [e | []].
  - destruct Hout as [_ ->]. simpl in Hin.
    destruct Hin as [Heq | [Heq | [Heq | Hin]]]; try discriminate. contradiction.
  - destruct Hout as (rx' & -> & _). simpl in Hin.
    destruct Hin as [Heq | [Heq | [Heq | Hin]]]; try discriminate.
    apply in_app_or in Hin. destruct Hin as [Hin | Hin]; [contradiction |].
    simpl in Hin. destruct Hin as [Heq | [Heq | []]]; [discriminate |].
    inversion Heq; subst.
    split; [reflexivity |]. split.
    + rewrite !expunges_app, Hex. reflexivity.
    + exists rs, rp, ob. split; [exact Hpf | reflexivity].
Qed.

Lemma expunge_only_after_the_marking_block_witness :
  let out := snd (process_mailbox_folder Examples.archive_no 0 "anna" "Archive" 48 []) in
  In (Commanded 0 Expunge (inr ("OK", [PBytes ""]))) out /\
  expunges out = [0].
Proof.
  cbn zeta. split; [in_trace |].
  exact (proj1 (proj2 (expunge_only_after_the_marking_block
           Examples.archive_no 0 "anna" "Archive" 48 [] (inr tt) _
           0 (inr ("OK", [PBytes ""])) eq_refl
           ltac:(in_trace)))).
Defined.

(** ** Replies the code does not expect *)

(** A fetch that returned a reply the code cannot use ends the loop with
    the exception of the parsing; the messages before that one have been
    marked, that one has not. *)
Lemma mark_loop_unparsed w mail user folder len messages :
  forall i h r out s num rp e,
  mark_loop w mail user folder len i messages h = (r, out) ->
  In (Commanded s (Fetch num) (inr rp)) out ->
  unparsed w rp = Some e ->
  r = inl e /\
  (exists before, out = before ++ [Commanded s (Fetch num) (inr rp)]) /\
  exists k, nth_error messages k = Some num /\ stores out = firstn k messages.
Proof.
  induction messages as [| n0 rest IH]; intros i h r out s num rp e H Hin Hu.
  - inversion H; subst. destruct Hin.
  - rewrite mark_loop_cons_run, announce_run in H.
    unfold unparsed in Hu.
    assert (Hrest : forall oa hs x,
              stores oa = [] ->
              ~ In (Commanded s (Fetch num) (inr rp)) oa ->
              (let (r0, o') := mark_loop w mail user folder len (S i) rest hs in
               (r0, oa ++ Commanded mail (Store n0) (inr x) :: o')) = (r, out) ->
              r = inl e /\
              (exists before, out = before ++ [Commanded s (Fetch num) (inr rp)]) /\
              exists k, nth_error (n0 :: rest) k = Some num /\
                        stores out = firstn k (n0 :: rest)).
    { intros oa hs x Hso Hno Hl.
      destruct (mark_loop w mail user folder len (S i) rest hs) as [r0 o'] eqn:El.
      inversion Hl; subst r0 out. clear Hl.
      apply in_app_or in Hin. destruct Hin as [Hin | [Heq | Hin]];
        [contradiction | discriminate |].
      destruct (IH _ _ _ _ _ _ _ _ El Hin Hu) as (-> & (before & ->) & k & Hk & Hs).
      split; [reflexivity |]. split.
      - exists (oa ++ Commanded mail (Store n0) (inr x) :: before).
        rewrite <- app_assoc. reflexivity.
      - exists (S k). split; [exact Hk |].
        rewrite stores_app, Hso. cbn. unfold stores in Hs. rewrite Hs. reflexivity. }
    destruct (boundary len i).
    + destruct (command w h mail (Fetch n0)) as [e0 | rp0].
      { inversion H; subst. destruct Hin as [Heq | []]. discriminate. }
      destruct (fst (parse_parts w None (snd rp0) [])) as [e1 | [m |]] eqn:Ep.
      * inversion H; subst. destruct Hin as [Heq | []].
        inversion Heq; subst. rewrite Ep in Hu. inversion Hu; subst.
        split; [reflexivity |]. split; [exists []; reflexivity |].
        exists 0. split; reflexivity.
      * destruct (command w _ mail (Store n0)) as [e0 | x].
        { inversion H; subst. exfalso. simpl in Hin.
          destruct Hin as [Heq | [Heq | [Heq | []]]]; try discriminate.
          inversion Heq; subst. rewrite Ep in Hu. discriminate. }
        eapply Hrest; [| | exact H]; [reflexivity |].
        intros Hi. simpl in Hi. destruct Hi as [Heq | [Heq | []]]; try discriminate.
        inversion Heq; subst. rewrite Ep in Hu. discriminate.
      * inversion H; subst. destruct Hin as [Heq | []].
        inversion Heq; subst. rewrite Ep in Hu. inversion Hu; subst.
        split; [reflexivity |]. split; [exists []; reflexivity |].
        exists 0. split; reflexivity.
    + destruct (command w _ mail (Store n0)) as [e0 | x].
      { inversion H; subst. exfalso. simpl in Hin.
        destruct Hin as [Heq | [Heq | []]]; discriminate. }
      eapply Hrest; [| | exact H]; [reflexivity |].
      intros Hi. simpl in Hi. destruct Hi as [Heq | []]. discriminate.
Qed.

(** An event of the marking block, found in the trace of the reap. *)
Lemma reap_marking_event w mail user folder cut h r out ev :
  process_mailbox_folder w mail user folder cut h = (r, out) ->
  In ev out ->
  (exists s num x, ev = Commanded s (Fetch num) x \/ ev = Commanded s (Store num) x) ->
  exists d rest hb rb ob,
    In (Commanded mail (Search (OLDER (cut * 60 * 60)))
          (inr ("OK", PBytes d :: rest))) out /\
    mark_loop w mail user folder (List.length (bytes_split d)) 0 (bytes_split d) hb
    = (rb, ob) /\
    In ev ob /\ stores out = stores ob /\
    match rb with
    | inl e => r = inl e /\ expunges out = [] /\ exists pre, out = pre ++ ob
    | inr _ => expunges out = [mail]
    end.
Proof.
  intros H Hin Hev.
  assert (Hk : forall lvl m, ev <> Logged lvl m).
  { destruct Hev as (s & num & x & [-> | ->]); discriminate. }
  assert (Hnot : forall s c x, c = Select folder \/ c = Expunge \/
                               (exists cr, c = Search cr) ->
                               ev <> Commanded s c x).
  { intros s c x Hc Heq. destruct Hev as (s' & num & x' & [-> | ->]);
      inversion Heq; subst; destruct Hc as [Hc | [Hc | [cr Hc]]]; discriminate. }
  destruct (reap_cases _ _ _ _ _ _ _ _ H)
    as [(e & _ & ->) | [(rs & e & _ & ->) | (rp & Hs)]].
  { destruct Hin as [Heq | []]. symmetry in Heq. apply Hnot in Heq; [destruct Heq | auto]. }
  { simpl in Hin. destruct Hin as [Heq | [Heq | [Heq | []]]]; symmetry in Heq.
    - apply Hnot in Heq; [destruct Heq | auto].
    - apply Hk in Heq. destruct Heq.
    - apply Hnot in Heq; [destruct Heq | eauto]. }
  destruct (reap_after_search _ _ _ _ _ _ _ _ _ _ _ H Hs)
    as (rs & rb & ob & _ & _ & Hpf & Hout).
  pose proof (Emits_process_found _ _ _ _ _ _ _ _ Hpf) as Hm.
  apply marking_projections in Hm. destruct Hm as (_ & _ & Hex & _).
  assert (Hpre : forall tl, In ev
            ([Commanded mail (Select folder) (inr rs);
              Logged INFO (MsgSearch user folder cut);
              Commanded mail (Search (OLDER (cut * 60 * 60))) (inr rp)] ++ tl) ->
            In ev tl).
  { intros tl Hi. simpl in Hi.
    destruct Hi as [Heq | [Heq | [Heq | Hi]]]; [| | | exact Hi]; symmetry in Heq.
    - apply Hnot in Heq; [destruct Heq | auto].
    - apply Hk in Heq. destruct Heq.
    - apply Hnot in Heq; [destruct Heq | eauto]. }
  assert (Hob : In ev ob).
  { destruct rb as [e | u].
    - destruct Hout as [_ ->]. apply Hpre in Hin. exact Hin.
    - destruct Hout as (rx & -> & _). apply Hpre in Hin.
      apply in_app_or in Hin. destruct Hin as [Hin | Hin]; [exact Hin |].
      simpl in Hin. destruct Hin as [Heq | [Heq | []]]; symmetry in Heq.
      + apply Hk in Heq. destruct Heq.
      + apply Hnot in Heq; [destruct Heq | auto]. }
  destruct (process_found_command _ _ _ _ _ _ _ _ _ Hpf Hob Hk)
    as (d & rest & -> & Hl).
  eexists d, rest, _, rb, ob.
  split; [exact Hs |]. split; [exact Hl |]. split; [exact Hob |].
  destruct rb as [e | u].
  - destruct Hout as [-> ->].
    rewrite stores_app, expunges_app, Hex. repeat split. eauto.
  - destruct Hout as (rx & -> & _).
    rewrite !stores_app, !expunges_app, Hex. cbn. rewrite app_nil_r. auto.
Qed.

(** A returned fetch whose reply cannot be used, seen from the reap. *)
Lemma reap_unparsed w mail user folder cut h r out s num rp e :
  process_mailbox_folder w mail user folder cut h = (r, out) ->
  In (Commanded s (Fetch num) (inr rp)) out ->
  unparsed w rp = Some e ->
  r = inl e /\
  (exists before, out = before ++ [Commanded s (Fetch num) (inr rp)]) /\
  expunges out = [] /\
  exists d rest k,
    In (Commanded mail (Search (OLDER (cut * 60 * 60)))
          (inr ("OK", PBytes d :: rest))) out /\
    nth_error (bytes_split d) k = Some num /\
    stores out = firstn k (bytes_split d).
Proof.
  intros H Hin Hu.
  destruct (reap_marking_event _ _ _ _ _ _ _ _ _ H Hin)
    as (d & rest & hb & rb & ob & Hs & Hl & Hob & Hst & Hrb); [eauto 6 |].
  destruct (mark_loop_unparsed _ _ _ _ _ _ _ _ _ _ _ _ _ _ Hl Hob Hu)
    as (-> & (before & ->) & k & Hk & Hsk).
  destruct Hrb as (-> & Hex & pre & ->).
  split; [reflexivity |]. split.
  { exists (pre ++ before). rewrite <- app_assoc. reflexivity. }
  split; [exact Hex |].
  exists d, rest, k. rewrite Hst. auto.
Qed.

Lemma parse_parts_no_tuple w data : forall msg h,
  existsb is_tuple data = false ->
  parse_parts w msg data h = (inr msg, []).
Proof.
  induction data as [| [| b | hd body] rest IH]; intros msg h Hn; simpl in *;
    auto; discriminate.
Qed.


(** X4: when the fetch of a boundary message returns a reply none of
    whose parts is a tuple, [msg] is still [None] at the log call, and
    subscripting it raises [TypeError], which leaves the reap: that fetch
    is the last call, the message and all later ones are not marked, and
    the folder is not expunged. *)
Theorem fetch_reply_without_literal_raises_TypeError :
  forall w mail user folder cut h r out s num typ data,
    process_mailbox_folder w mail user folder cut h = (r, out) ->
    In (Commanded s (Fetch num) (inr (typ, data))) out ->
    existsb is_tuple data = false ->
    r = inl TypeError /\
    (exists before, out = before ++ [Commanded s (Fetch num) (inr (typ, data))]) /\
    expunges out = [] /\
    exists d rest k,
      In (Commanded mail (Search (OLDER (cut * 60 * 60)))
            (inr ("OK", PBytes d :: rest))) out /\
      nth_error (bytes_split d) k = Some num /\
      stores out = firstn k (bytes_split d).
Proof.
  intros w mail user folder cut h r out s num typ data H Hin Hn.
  apply (reap_unparsed _ _ _ _ _ _ _ _ _ _ _ _ H Hin).
  unfold unparsed. cbn [snd]. rewrite parse_parts_no_tuple by assumption.
  reflexivity.
Qed.

Lemma fetch_reply_without_literal_raises_TypeError_witness :
  let run := process_mailbox_folder Faults.fetch_no_literal 0 "anna" "INBOX" 24 [] in
  In (Commanded 0 (Fetch "4") (inr ("OK", [PNone]))) (snd run) /\
  existsb is_tuple [PNone] = false /\
  fst run = inl TypeError /\ stores (snd run) = [] /\ expunges (snd run) = [].
Proof.
  cbn zeta.
  destruct (fetch_reply_without_literal_raises_TypeError
              Faults.fetch_no_literal 0 "anna" "INBOX" 24 []
              (fst (process_mailbox_folder Faults.fetch_no_literal 0 "anna" "INBOX" 24 []))
              (snd (process_mailbox_folder Faults.fetch_no_literal 0 "anna" "INBOX" 24 []))
              0 "4" "OK" [PNone] eq_refl ltac:(in_trace) eq_refl)
    as (Hr & _ & Hx & _).
  split; [in_trace |]. split; [reflexivity |]. split; [exact Hr |].
  split; [reflexivity | exact Hx].
Defined.



(** X6: when the search returns status OK but its data list is empty or
    its first element is not a [bytes] object, [messages[0].split()]
    raises ([IndexError] on the empty list, [AttributeError] otherwise)
    and the exception leaves the reap: the search is its last call, and
    nothing is fetched, marked or expunged. *)
Theorem search_reply_without_data_raises :
  forall w mail user folder cut h r out s c data,
    process_mailbox_folder w mail user folder cut h = (r, out) ->
    In (Commanded s (Search c) (inr ("OK", data))) out ->
    (forall d rest, data <> PBytes d :: rest) ->
    r = inl (match data with [] => IndexError | _ => AttributeError end) /\
    (exists rs,
       out = [Commanded mail (Select folder) (inr rs);
              Logged INFO (MsgSearch user folder cut);
              Commanded mail (Search (OLDER (cut * 60 * 60))) (inr ("OK", data))]) /\
    stores out = [] /\ fetches out = [] /\ expunges out = [].
Proof.
  intros w mail user folder cut h r out s c data H Hin Hd.
  destruct (reap_after_search _ _ _ _ _ _ _ _ _ _ _ H Hin)
    as (rs & rb & ob & _ & _ & Hpf & Hout).
  assert (Hb : rb = inl (match data with [] => IndexError | _ => AttributeError end)
               /\ ob = []).
  { destruct data as [| [| d | hd body] rest]; try (inversion Hpf; auto).
    exfalso. eapply Hd. reflexivity. }
  destruct Hb as [-> ->]. destruct Hout as [-> ->].
  split; [reflexivity |]. split; [exists rs; reflexivity |].
  repeat split.
Qed.

Lemma search_reply_without_data_raises_witness :
  let run := process_mailbox_folder Faults.search_no_data 0 "anna" "INBOX" 24 [] in
  In (Commanded 0 (Search (OLDER 86400)) (inr ("OK", []))) (snd run) /\
  fst run = inl IndexError /\ expunges (snd run) = [].
Proof.
  cbn zeta.
  destruct (search_reply_without_data_raises
              Faults.search_no_data 0 "anna" "INBOX" 24 []
              (fst (process_mailbox_folder Faults.search_no_data 0 "anna" "INBOX" 24 []))
              (snd (process_mailbox_folder Faults.search_no_data 0 "anna" "INBOX" 24 []))
              0 (OLDER 86400) [] eq_refl ltac:(in_trace)
              ltac:(intros d rest; discriminate))
    as (Hr & _ & _ & _ & Hx).
  split; [in_trace |]. split; [exact Hr | exact Hx].
Defined.

(** X7: when a store raises, the exception leaves the reap, the folder
    is not expunged, and the messages a store was issued for are exactly
    the references of the search reply up to and including the one whose
    store raised; the later ones are left unmarked. *)
Theorem store_exception_leaves_later_messages_unmarked :
  forall w mail user folder cut h r out s num e,
    process_mailbox_folder w mail user folder cut h = (r, out) ->
    In (Commanded s (Store num) (inl e)) out ->
    r = inl e /\ expunges out = [] /\
    exists d rest k,
      In (Commanded mail (Search (OLDER (cut * 60 * 60)))
            (inr ("OK", PBytes d :: rest))) out /\
      nth_error (bytes_split d) k = Some num /\
      stores out = firstn (S k) (bytes_split d).
Proof.
  intros w mail user folder cut h r out s num e H Hin.
  destruct (reap_marking_event _ _ _ _ _ _ _ _ _ H Hin)
    as (d & rest & hb & rb & ob & Hs & Hl & Hob & Hst & Hrb); [eauto 6 |].
  destruct (fail_stop_In _ _ _ e (FailStop_mark_loop _ _ _ _ _ _ _ _ _ _ Hl)
              Hob eq_refl) as (-> & _).
  destruct Hrb as (-> & Hex & _).
  destruct (mark_loop_store_raised _ _ _ _ _ _ _ _ _ _ _ _ _ Hl Hob) as (k & Hk & Hsk).
  split; [reflexivity |]. split; [exact Hex |].
  exists d, rest, k. rewrite Hst. auto.
Qed.

Lemma store_exception_leaves_later_messages_unmarked_witness :
  let run := process_mailbox_folder Examples.store_fails 0 "anna" "INBOX" 24 [] in
  In (Commanded 0 (Store "9") (inl (IMAP4_error "STORE command error: BAD")))
     (snd run) /\
  fst run = inl (IMAP4_error "STORE command error: BAD") /\
  stores (snd run) = ["4"; "9"] /\ expunges (snd run) = [].
Proof.
  cbn zeta.
  destruct (store_exception_leaves_later_messages_unmarked
              Examples.store_fails 0 "anna" "INBOX" 24 []
              (fst (process_mailbox_folder Examples.store_fails 0 "anna" "INBOX" 24 []))
              (snd (process_mailbox_folder Examples.store_fails 0 "anna" "INBOX" 24 []))
              0 "9" (IMAP4_error "STORE command error: BAD")
              eq_refl ltac:(in_trace))
    as (Hr & Hx & _).
  split; [in_trace |]. split; [exact Hr |]. split; [reflexivity | exact Hx].
Defined.

(** ** One account, whatever happens *)

Lemma reaping_in_session mail ev : reaping mail ev -> in_session mail ev.
Proof.
  destruct ev as [host r | s c r | lvl m]; simpl; [tauto | |].
  - destruct c; simpl; tauto.
  - destruct lvl, m; simpl; tauto.
Qed.

Lemma Emits_session_body w mail user cfg cutoff :
  Emits (in_session mail) (session_body w mail user cfg cutoff).
Proof.
  unfold session_body.
  apply Emits_bind; [apply Emits_call; reflexivity | intros _].
  apply Emits_bind;
    [eapply Emits_weaken; [apply reaping_in_session | apply Emits_folder_loop]
    | intros _].
  apply Emits_bind; [apply Emits_call; reflexivity | intros _].
  apply Emits_bind; [apply Emits_call; reflexivity | intros _].
  apply Emits_ret.
Qed.

Lemma connects_app tr1 tr2 : connects (tr1 ++ tr2) = connects tr1 ++ connects tr2.
Proof. apply flat_map_app. Qed.

Lemma account_records_app tr1 tr2 :
  account_records (tr1 ++ tr2) = account_records tr1 ++ account_records tr2.
Proof. apply flat_map_app. Qed.

Lemma in_session_projections mail tr :
  Forall (in_session mail) tr -> connects tr = [] /\ account_records tr = [].
Proof.
  intros H. split; apply flat_map_nil_Forall;
    (eapply Forall_impl; [| exact H]);
    intros [host r | s c r | lvl m]; simpl; try tauto;
    destruct m; simpl; tauto.
Qed.

Lemma account_record_of_error user e :
  account_record_of (Logged ERROR (account_error user e)) = [account_error user e].
Proof. unfold account_error. destruct (is_IMAP4_error e); reflexivity. Qed.

(** Every run of [process_mailbox]: the connection failed and the
    handler raised, or the [try] block ran on the connection and the
    function returned, after one record when the block raised. *)
Lemma process_mailbox_cases w cfg cutoff h res out :
  process_mailbox w cfg cutoff h = (res, out) ->
  (exists e,
     imap4_ssl w h (imap cfg) = inl e /\
     res = inl (UnboundLocalError "user") /\
     out = [Connected (imap cfg) (inl e)]) \/
  (exists mail rb ob,
     imap4_ssl w h (imap cfg) = inr mail /\
     session_body w mail (username cfg) cfg cutoff
       (h ++ [Connected (imap cfg) (inr mail)]) = (rb, ob) /\
     res = inr tt /\
     Forall (in_session mail) ob /\
     fail_stop rb ob /\
     out = Connected (imap cfg) (inr mail)
           :: ob ++ match rb with
                    | inl e => [Logged ERROR (account_error (username cfg) e)]
                    | inr _ => []
                    end).
Proof.
  rewrite process_mailbox_run.
  destruct (imap4_ssl w h (imap cfg)) as [e | mail].
  { intros H. inversion H; subst. left. eauto. }
  cbn zeta.
  destruct (session_body w mail (username cfg) cfg cutoff _) as [rb ob] eqn:Eb.
  intros H. right. exists mail, rb, ob.
  pose proof (Emits_session_body _ _ _ _ _ _ _ _ Eb) as Hm.
  pose proof (FailStop_session_body _ _ _ _ _ _ _ _ Eb) as Hf.
  destruct rb as [e | []]; inversion H; subst; repeat split; auto.
  rewrite app_nil_r. reflexivity.
Qed.

(** The connection attempts of one account, by its outcome. *)
Lemma process_mailbox_connects w cfg cutoff h res out :
  process_mailbox w cfg cutoff h = (res, out) ->
  connects out = [imap cfg] /\
  match res with
  | inl e =>
      e = UnboundLocalError "user" /\
      exists e', out = [Connected (imap cfg) (inl e')]
  | inr _ => forall host e, ~ In (Connected host (inl e)) out
  end.
Proof.
  intros H.
  destruct (process_mailbox_cases _ _ _ _ _ _ H)
    as [(e & _ & -> & ->) | (mail & rb & ob & _ & _ & -> & Hm & _ & ->)].
  - split; [reflexivity |]. split; eauto.
  - pose proof (in_session_projections _ _ Hm) as [Hc _].
    split.
    + change (Connected (imap cfg) (inr mail) :: ?l)
        with ([Connected (imap cfg) (inr mail)] ++ l).
      rewrite !connects_app, Hc. destruct rb; reflexivity.
    + intros host e [Heq | Hin]; [discriminate |].
      apply in_app_or in Hin. destruct Hin as [Hin | Hin].
      * rewrite Forall_forall in Hm. apply (Hm _ Hin).
      * destruct rb; simpl in Hin; [destruct Hin as [Heq | []]; discriminate | exact Hin].
Qed.

(** The run of [process_mailbox] on an entry, key by key: with the three
    keys present it is the run on the account they describe. *)
Lemma process_mailbox_entry_run w entry cutoff h :
  process_mailbox_entry w entry cutoff h =
  match getitem entry "imap" with
  | None => (inl (UnboundLocalError "user"), [])
  | Some host =>
      match imap4_ssl w h host with
      | inl e => (inl (UnboundLocalError "user"), [Connected host (inl e)])
      | inr mail =>
          match getitem entry "username" with
          | None => (inl (UnboundLocalError "user"), [Connected host (inr mail)])
          | Some user =>
              match getitem entry "password" with
              | None =>
                  (inr tt,
                   [Connected host (inr mail);
                    Logged ERROR (MsgMailboxError user (KeyError "password"))])
              | Some pw =>
                  process_mailbox w
                    {| imap := host; username := user; password := pw |} cutoff h
              end
          end
      end
  end.
Proof.
  unfold process_mailbox_entry, subscript.
  destruct (getitem entry "imap") as [host |]; [| reflexivity].
  unfold bind at 1. unfold attempt at 1. rewrite bind_ret. unfold IMAP4_SSL at 1.
  destruct (imap4_ssl w h host) as [e | mail] eqn:Hc; [reflexivity |].
  destruct (getitem entry "username") as [user |]; [| reflexivity].
  destruct (getitem entry "password") as [pw |].
  - rewrite process_mailbox_run. cbn [imap username password]. rewrite Hc.
    cbn zeta. unfold session_body. cbn [password].
    unfold bind at 1. unfold attempt at 1. unfold ret at 1.
    unfold bind at 1. unfold attempt at 1. rewrite bind_ret.
    rewrite app_nil_r.
    destruct (bind (call w mail (Login user pw)) _ _) as [[e | []] ob];
      unfold except_clauses, logging, ret; rewrite ?app_nil_r; reflexivity.
  - reflexivity.
Qed.

(** X8: on an account entry given as a dict of strings, any of whose
    keys may be missing, an exception leaves [process_mailbox] exactly
    when [user] is still unassigned as the [try] block is left: the entry
    has no imap key, the connection cannot be opened, or the entry has no
    username key.  What leaves is then the [UnboundLocalError] of the
    handler; nothing is logged and no call is made on a connection.  In
    every other case the function returns: a missing password key is
    recorded as a mailbox error before any call on the connection, and
    with all three keys the run is the one of the account they describe. *)
Theorem only_an_unassigned_user_escapes :
  forall w entry cutoff h,
    let run := process_mailbox_entry w entry cutoff h in
    (user_unassigned w entry h ->
     fst run = inl (UnboundLocalError "user") /\
     (forall lvl m, ~ In (Logged lvl m) (snd run)) /\
     (forall s c r, ~ In (Commanded s c r) (snd run))) /\
    (~ user_unassigned w entry h -> fst run = inr tt) /\
    (~ user_unassigned w entry h ->
     getitem entry "password" = None ->
     exists host mail user,
       getitem entry "username" = Some user /\
       snd run = [Connected host (inr mail);
                  Logged ERROR (MsgMailboxError user (KeyError "password"))]) /\
    (forall host user pw,
       getitem entry "imap" = Some host ->
       getitem entry "username" = Some user ->
       getitem entry "password" = Some pw ->
       run = process_mailbox w
               {| imap := host; username := user; password := pw |} cutoff h).
Proof.
  intros w entry cutoff h. cbn zeta.
  rewrite process_mailbox_entry_run. unfold user_unassigned.
  destruct (getitem entry "imap") as [host |].
  2: { repeat split; try tauto; try discriminate; intros; intros []. }
  destruct (imap4_ssl w h host) as [e | mail] eqn:Hc.
  { repeat split; try tauto; try discriminate.
    - intros lvl m [Heq | []]. discriminate.
    - intros s c r [Heq | []]. discriminate.
    - intros host0 user pw Heq. inversion Heq; subst host0. intros Hu Hp.
      rewrite process_mailbox_run. cbn [imap]. rewrite Hc. reflexivity. }
  destruct (getitem entry "username") as [user |].
  2: { repeat split; try tauto; try discriminate.
       - intros lvl m [Heq | []]. discriminate.
       - intros s c r [Heq | []]. discriminate. }
  destruct (getitem entry "password") as [pw |].
  - split; [intros Hu; discriminate |].
    split.
    { intros _. rewrite process_mailbox_run. cbn [imap username]. rewrite Hc.
      cbn zeta. destruct (session_body w mail user _ cutoff _) as [[e | u] ob];
        reflexivity. }
    split; [intros _ Hp; discriminate |].
    intros host0 user0 pw0 H1 H2 H3. inversion H1; inversion H2; inversion H3.
    reflexivity.
  - split; [intros Hu; discriminate |].
    split; [reflexivity |].
    split; [| intros host0 user0 pw0 _ _ Hp; discriminate].
    intros _ _. exists host, mail, user. split; reflexivity.
Qed.

(** The two entries with a missing key: without a user name the
    connection is opened, never used, and the exception of the handler
    leaves the function; without a password the error is recorded. *)
Example entry_without_username_run :
  process_mailbox_entry Examples.healthy Faults.no_username Examples.two_folders []
  = (inl (UnboundLocalError "user"), [Connected "imap.example.org" (inr 0)]) /\
  process_mailbox_entry Examples.healthy Faults.no_password Examples.two_folders []
  = (inr tt, [Connected "imap.example.org" (inr 0);
              Logged ERROR (MsgMailboxError "anna" (KeyError "password"))]).
Proof. split; reflexivity. Qed.

(** X9: the first call on the connection that raises, whichever it is
    (login, select, search, fetch, store, expunge, close or logout), is
    the last call of the account: nothing raised before it, and only the
    error record of that exception follows, after which [process_mailbox]
    returns. *)
Theorem first_exception_ends_the_account :
  forall w cfg cutoff h res out s c e,
    process_mailbox w cfg cutoff h = (res, out) ->
    In (Commanded s c (inl e)) out ->
    res = inr tt /\
    exists before,
      out = Connected (imap cfg) (inr s)
            :: before ++ [Commanded s c (inl e);
                          Logged ERROR (account_error (username cfg) e)] /\
      quiet before.
Proof.
  intros w cfg cutoff h res out s c e H Hin.
  destruct (process_mailbox_cases _ _ _ _ _ _ H)
    as [(e0 & _ & _ & ->) | (mail & rb & ob & _ & _ & -> & Hm & Hf & ->)].
  { destruct Hin as [Heq | []]. discriminate. }
  assert (Hob : In (Commanded s c (inl e)) ob).
  { destruct Hin as [Heq | Hin]; [discriminate |].
    apply in_app_or in Hin. destruct Hin as [Hin | Hin]; [exact Hin |].
    destruct rb; simpl in Hin; [destruct Hin as [Heq | []]; discriminate | destruct Hin]. }
  assert (s = mail) as ->.
  { rewrite Forall_forall in Hm. apply (Hm _ Hob). }
  destruct (fail_stop_In _ _ _ e Hf Hob eq_refl) as (-> & pre & -> & Hq).
  split; [reflexivity |]. exists pre. split; [| exact Hq].
  rewrite <- app_assoc. reflexivity.
Qed.

Lemma first_exception_ends_the_account_witness :
  let run := process_mailbox Faults.close_fails Examples.anna Examples.two_folders [] in
  In (Commanded 0 Close (inl (IMAP4_error "socket error: EOF"))) (snd run) /\
  fst run = inr tt /\
  teardowns (snd run) = [(0, Close)].
Proof.
  cbn zeta.
  split; [in_trace |].
  split; [| reflexivity].
  exact (proj1 (first_exception_ends_the_account
                  Faults.close_fails Examples.anna Examples.two_folders []
                  (fst (process_mailbox Faults.close_fails Examples.anna
                          Examples.two_folders []))
                  (snd (process_mailbox Faults.close_fails Examples.anna
                          Examples.two_folders []))
                  0 Close (IMAP4_error "socket error: EOF")
                  eq_refl ltac:(in_trace))).
Defined.

(** X10: [process_mailbox] writes at most one account-level error
    record; when it writes one, the record is the last event of the
    account and carries the user name of the account. *)
Theorem at_most_one_error_record_per_account :
  forall w cfg cutoff h,
    let out := snd (process_mailbox w cfg cutoff h) in
    account_records out = [] \/
    exists e before,
      out = before ++ [Logged ERROR (account_error (username cfg) e)] /\
      account_records before = [] /\
      account_records out = [account_error (username cfg) e].
Proof.
  intros w cfg cutoff h.
  destruct (process_mailbox w cfg cutoff h) as [res out] eqn:H.
  cbn [snd]. cbn zeta.
  destruct (process_mailbox_cases _ _ _ _ _ _ H)
    as [(e0 & _ & _ & ->) | (mail & rb & ob & _ & _ & _ & Hm & _ & ->)].
  { left. reflexivity. }
  pose proof (in_session_projections _ _ Hm) as [_ Ha].
  assert (Hb : account_records (Connected (imap cfg) (inr mail) :: ob) = []).
  { change (account_records ([Connected (imap cfg) (inr mail)] ++ ob) = []).
    rewrite account_records_app, Ha. reflexivity. }
  destruct rb as [e | u].
  - right. exists e, (Connected (imap cfg) (inr mail) :: ob).
    split; [reflexivity |]. split; [exact Hb |].
    change (account_records
              ((Connected (imap cfg) (inr mail) :: ob)
               ++ [Logged ERROR (account_error (username cfg) e)])
            = [account_error (username cfg) e]).
    rewrite account_records_app, Hb. cbn [app account_records flat_map].
    rewrite account_record_of_error. reflexivity.
  - left. rewrite app_nil_r. exact Hb.
Qed.

(** X11: [process_mailbox] attempts exactly one connection, to the host
    of the account, and every call it makes goes to the connection object
    that this attempt returned: no call reaches another session. *)
Theorem commands_stay_on_the_account_session :
  forall w cfg cutoff h,
    let out := snd (process_mailbox w cfg cutoff h) in
    connects out = [imap cfg] /\
    forall s c x, In (Commanded s c x) out -> imap4_ssl w h (imap cfg) = inr s.
Proof.
  intros w cfg cutoff h.
  destruct (process_mailbox w cfg cutoff h) as [res out] eqn:H.
  cbn [snd]. cbn zeta.
  split; [exact (proj1 (process_mailbox_connects _ _ _ _ _ _ H)) |].
  intros s c x Hin.
  destruct (process_mailbox_cases _ _ _ _ _ _ H)
    as [(e0 & _ & _ & ->) | (mail & rb & ob & Hc & _ & _ & Hm & _ & ->)].
  { destruct Hin as [Heq | []]. discriminate. }
  destruct Hin as [Heq | Hin]; [discriminate |].
  apply in_app_or in Hin. destruct Hin as [Hin | Hin].
  - rewrite Forall_forall in Hm. apply Hm in Hin. simpl in Hin. subst s. exact Hc.
  - destruct rb; simpl in Hin; [destruct Hin as [Heq | []]; discriminate | destruct Hin].
Qed.

(** X12: once the connection is open, the first call is the login with
    the user name and the password of the account, and no other login
    follows; when that login raises, the only thing that follows is the
    error record: no folder is selected and the connection is neither
    closed nor logged out. *)
Theorem login_comes_first_and_only_once :
  forall w cfg cutoff h mail,
    imap4_ssl w h (imap cfg) = inr mail ->
    exists rl tl,
      snd (process_mailbox w cfg cutoff h) =
        Connected (imap cfg) (inr mail)
        :: Commanded mail (Login (username cfg) (password cfg)) rl :: tl /\
      (forall s u p x, ~ In (Commanded s (Login u p) x) tl) /\
      (forall e, rl = inl e ->
                 tl = [Logged ERROR (account_error (username cfg) e)]).
Proof.
  intros w cfg cutoff h mail Hc.
  rewrite process_mailbox_run, Hc. cbn zeta. rewrite session_body_run. cbn zeta.
  destruct (command w _ mail (Login _ _)) as [e | rl].
  { exists (inl e), [Logged ERROR (account_error (username cfg) e)].
    split; [reflexivity |]. split.
    - intros s u p x [Heq | []]. discriminate.
    - intros e0 Heq. inversion Heq; subst. reflexivity. }
  destruct (folder_loop w mail (username cfg) cutoff (keys cutoff) _)
    as [rloop ol] eqn:El.
  pose proof (Emits_folder_loop _ _ _ _ _ _ _ _ El) as Hm.
  assert (Hol : forall s u p x, ~ In (Commanded s (Login u p) x) ol).
  { intros s u p x Hi. rewrite Forall_forall in Hm. apply (Hm _ Hi). }
  assert (Hfin : forall tl,
            (forall s u p x, ~ In (Commanded s (Login u p) x) tl) ->
            forall s u p x, ~ In (Commanded s (Login u p) x) (ol ++ tl)).
  { intros tl Htl s u p x Hi. apply in_app_or in Hi.
    destruct Hi as [Hi | Hi]; [eapply Hol | eapply Htl]; eauto. }
  exists (inr rl).
  destruct rloop as [e | done].
  - exists (ol ++ [Logged ERROR (account_error (username cfg) e)]).
    split; [reflexivity |]. split; [| discriminate].
    apply Hfin. intros s u p x [Heq | []]. discriminate.
  - destruct (command w _ mail Close) as [e | rc].
    + exists (ol ++ [Commanded mail Close (inl e);
                     Logged ERROR (account_error (username cfg) e)]).
      split; [cbn [snd app]; rewrite <- ?app_assoc; reflexivity |].
      split; [| discriminate].
      apply Hfin. intros s u p x [Heq | [Heq | []]]; discriminate.
    + cbn zeta. destruct (command w _ mail Logout) as [e | ro].
      * exists (ol ++ [Commanded mail Close (inr rc);
                       Commanded mail Logout (inl e);
                       Logged ERROR (account_error (username cfg) e)]).
        split; [cbn [snd app]; rewrite <- ?app_assoc; reflexivity |].
        split; [| discriminate].
        apply Hfin. intros s u p x [Heq | [Heq | [Heq | []]]]; discriminate.
      * exists (ol ++ [Commanded mail Close (inr rc);
                       Commanded mail Logout (inr ro)]).
        split; [cbn [snd app]; rewrite <- ?app_assoc; reflexivity |].
        split; [| discriminate].
        apply Hfin. intros s u p x [Heq | [Heq | []]]; discriminate.
Qed.

Lemma login_comes_first_and_only_once_witness :
  imap4_ssl Examples.anna_rejected [] (imap Examples.anna) = inr 0 /\
  exists rl tl,
    snd (process_mailbox Examples.anna_rejected Examples.anna Examples.two_folders [])
    = Connected "imap.example.org" (inr 0)
      :: Commanded 0 (Login "anna" "pw") rl :: tl /\
    (forall s u p x, ~ In (Commanded s (Login u p) x) tl) /\
    (forall e, rl = inl e -> tl = [Logged ERROR (account_error "anna" e)]).
Proof.
  split; [reflexivity |].
  exact (login_comes_first_and_only_once
           Examples.anna_rejected Examples.anna Examples.two_folders [] 0 eq_refl).
Defined.

(** ** A run without an error record *)

Lemma getitem_NoDup {V : Type} (d : Dict V) k v :
  NoDup (keys d) -> In (k, v) d -> getitem d k = Some v.
Proof.
  induction d as [| [k' v'] d IH]; simpl; [intros _ [] |].
  intros Hnd Hin. inversion Hnd as [| ? ? Hnot Hnd']; subst.
  destruct Hin as [Heq | Hin].
  - inversion Heq; subst. rewrite String.eqb_refl. reflexivity.
  - destruct (String.eqb_spec k k') as [-> | Hne]; [| auto].
    exfalso. apply Hnot. unfold keys. apply in_map_iff.
    exists (k', v). auto.
Qed.

(** A reap that returns selected its folder, searched it once with the
    threshold in seconds, and expunged it once. *)
Lemma reap_returned w mail user folder cut h out :
  process_mailbox_folder w mail user folder cut h = (inr tt, out) ->
  selects out = [folder] /\ searches out = [OLDER (cut * 60 * 60)] /\
  expunges out = [mail].
Proof.
  intros H. split; [eapply reap_selects; eauto |].
  destruct (reap_cases _ _ _ _ _ _ _ _ H)
    as [(e & He & _) | [(rs & e & He & _) | (rp & Hin)]]; try discriminate.
  destruct (reap_after_search _ _ _ _ _ _ _ _ _ _ _ H Hin)
    as (rs & rb & ob & _ & _ & Hpf & Hout).
  apply Emits_process_found, marking_projections in Hpf.
  destruct Hpf as (_ & Hse & Hex & _).
  destruct rb as [e | u].
  - destruct Hout as [He _]. discriminate.
  - destruct Hout as (rx & -> & _).
    rewrite !searches_app, !expunges_app, Hse, Hex. split; reflexivity.
Qed.

Lemma folder_loop_returned w mail user cutoff : forall items h out,
  (forall k v, In (k, v) items -> getitem cutoff k = Some v) ->
  folder_loop w mail user cutoff (map fst items) h = (inr tt, out) ->
  selects out = map fst items /\
  searches out = map (fun kv => OLDER (snd kv * 3600)) items /\
  expunges out = map (fun _ => mail) items.
Proof.
  induction items as [| [k v] items IH]; intros h out Hget H.
  - inversion H. repeat split.
  - cbn [map fst] in H.
    rewrite (folder_loop_cons _ _ _ _ _ v _ _ (Hget k v (or_introl eq_refl))) in H.
    destruct (process_mailbox_folder w mail user k v h) as [[e | []] o1] eqn:Er;
      [discriminate |].
    destruct (folder_loop w mail user cutoff (map fst items) (h ++ o1))
      as [r' o'] eqn:El.
    inversion H; subst.
    apply reap_returned in Er. destruct Er as (Hs1 & Hr1 & Hx1).
    apply IH in El; [| intros k0 v0 Hi; apply Hget; right; exact Hi].
    destruct El as (Hs2 & Hr2 & Hx2).
    rewrite selects_app, searches_app, expunges_app,
      Hs1, Hr1, Hx1, Hs2, Hr2, Hx2.
    cbn [map fst snd app].
    replace (v * 60 * 60)%Z with (v * 3600)%Z by ring.
    repeat split.
Qed.

(** X13: for an account entry that has its host, user name and password
    (an entry with a missing key is the subject of X8): when the
    connection opened and the run wrote no error record, the account did
    all of its work: every configured folder, in the order of the
    configuration, was selected, searched with its own threshold in
    seconds and expunged once, and then the connection was closed and
    logged out, once each. *)
Theorem run_without_error_record_is_complete :
  forall w cfg cutoff h mail,
    NoDup (keys cutoff) ->
    imap4_ssl w h (imap cfg) = inr mail ->
    account_records (snd (process_mailbox w cfg cutoff h)) = [] ->
    let out := snd (process_mailbox w cfg cutoff h) in
    selects out = keys cutoff /\
    searches out = map (fun kv => OLDER (snd kv * 3600)) cutoff /\
    expunges out = map (fun _ => mail) cutoff /\
    teardowns out = [(mail, Close); (mail, Logout)] /\
    quiet out.
Proof.
  intros w cfg cutoff h mail Hnd Hc Hrec. cbn zeta.
  destruct (process_mailbox w cfg cutoff h) as [res out] eqn:H.
  cbn [snd] in *.
  destruct (process_mailbox_cases _ _ _ _ _ _ H)
    as [(e0 & Hc0 & _) | (mail' & rb & ob & Hc' & Hb & _ & Hm & Hf & ->)];
    [congruence |].
  assert (mail' = mail) as -> by congruence.
  destruct rb as [e | []].
  { exfalso.
    change (Connected (imap cfg) (inr mail)
            :: ob ++ [Logged ERROR (account_error (username cfg) e)])
      with (([Connected (imap cfg) (inr mail)] ++ ob)
            ++ [Logged ERROR (account_error (username cfg) e)]) in Hrec.
    rewrite account_records_app in Hrec. apply app_eq_nil in Hrec.
    destruct Hrec as [_ Hrec]. cbn [account_records flat_map] in Hrec.
    rewrite account_record_of_error in Hrec. discriminate. }
  rewrite app_nil_r.
  apply fail_stop_returned in Hf.
  rewrite session_body_run in Hb. cbn zeta in Hb.
  destruct (command w _ mail (Login _ _)) as [e | rl]; [discriminate |].
  destruct (folder_loop w mail (username cfg) cutoff (keys cutoff) _)
    as [[e | []] ol] eqn:El; [discriminate |].
  destruct (command w _ mail Close) as [e | rc]; [discriminate |].
  cbn zeta in Hb.
  destruct (command w _ mail Logout) as [e | ro]; [discriminate |].
  inversion Hb; subst ob. clear Hb.
  pose proof (Emits_folder_loop _ _ _ _ _ _ _ _ El) as Hr.
  apply reaping_projections in Hr.
  apply folder_loop_returned in El;
    [| intros k v Hi; apply getitem_NoDup; assumption].
  destruct El as (Hs & Hse & Hx).
  unfold selects, searches, expunges, teardowns in *.
  cbn [flat_map select_of search_of expunge_of teardown_of app].
  rewrite !flat_map_app, Hs, Hse, Hx, Hr.
  cbn [flat_map select_of search_of expunge_of teardown_of app].
  rewrite !app_nil_r.
  repeat split.
  apply Forall_cons; [reflexivity | exact Hf].
Qed.

Lemma run_without_error_record_is_complete_witness :
  let out := snd (process_mailbox Examples.healthy Examples.anna Examples.two_folders []) in
  NoDup (keys Examples.two_folders) /\
  account_records out = [] /\
  searches out = [OLDER 86400; OLDER 3600] /\
  expunges out = [0; 0] /\
  teardowns out = [(0, Close); (0, Logout)].
Proof.
  cbn zeta.
  assert (Hnd : NoDup (keys Examples.two_folders)).
  { repeat constructor; simpl; intuition discriminate. }
  split; [exact Hnd |]. split; [reflexivity |].
  destruct (run_without_error_record_is_complete
              Examples.healthy Examples.anna Examples.two_folders [] 0
              Hnd eq_refl eq_refl) as (_ & Hse & Hx & Ht & _).
  split; [exact Hse |]. split; [exact Hx | exact Ht].
Defined.

(** ** The account loop of [main] *)

Lemma mbox_loop_connects w config : forall ids h r out,
  (forall id, In id ids -> exists cfg, getitem (mboxes config) id = Some cfg) ->
  mbox_loop w config ids h = (r, out) ->
  match r with
  | inr _ =>
      connects out = map (host_of config) ids /\
      forall host e, ~ In (Connected host (inl e)) out
  | inl e =>
      e = UnboundLocalError "user" /\
      exists pre id post e' before,
        ids = pre ++ id :: post /\
        connects out = map (host_of config) (pre ++ [id]) /\
        out = before ++ [Connected (host_of config id) (inl e')] /\
        forall host e0, ~ In (Connected host (inl e0)) before
  end.
Proof.
  induction ids as [| id rest IH]; intros h r out Hkeys H.
  - inversion H; subst. split; [reflexivity | intros host e []].
  - destruct (Hkeys id (or_introl eq_refl)) as [cfg Hcfg].
    assert (Hhost : host_of config id = imap cfg).
    { unfold host_of. rewrite Hcfg. reflexivity. }
    rewrite (mbox_loop_cons _ _ _ _ _ _ Hcfg) in H.
    destruct (process_mailbox w cfg (cutofftime config) h) as [[e | u] o1] eqn:Er.
    + inversion H; subst.
      destruct (process_mailbox_connects _ _ _ _ _ _ Er) as (Hc & -> & e' & ->).
      split; [reflexivity |].
      exists [], id, rest, e', []. cbn [app map]. rewrite Hhost.
      split; [reflexivity |]. split; [exact Hc |]. split; [reflexivity |].
      intros host e0 [].
    + destruct (mbox_loop w config rest (h ++ o1)) as [r' o'] eqn:El.
      inversion H; subst.
      destruct (process_mailbox_connects _ _ _ _ _ _ Er) as (Hc & Hok).
      apply IH in El; [| intros i Hi; apply Hkeys; right; exact Hi].
      destruct r as [e | u'].
      * destruct El as (-> & pre & i & post & e' & before & -> & Hcs & -> & Hb).
        split; [reflexivity |].
        exists (id :: pre), i, post, e', (o1 ++ before).
        split; [reflexivity |]. split.
        { rewrite connects_app, Hc, Hcs. cbn [map app]. rewrite Hhost. reflexivity. }
        split; [rewrite app_assoc; reflexivity |].
        intros host e0 Hi. apply in_app_or in Hi.
        destruct Hi as [Hi | Hi]; [eapply Hok | eapply Hb]; eauto.
      * destruct El as (Hcs & Hb). split.
        { rewrite connects_app, Hc, Hcs. cbn [map app]. rewrite Hhost. reflexivity. }
        intros host e0 Hi. apply in_app_or in Hi.
        destruct Hi as [Hi | Hi]; [eapply Hok | eapply Hb]; eauto.
Qed.

(** X14: for a configuration that has its mboxes and cutofftime members
    and whose account entries each have host, user name and password:
    [main] attempts the accounts in the order of the configuration, one
    connection each.  It returns exactly when every connection opens,
    and then every account was attempted; the first connection that
    fails ends the run with [UnboundLocalError]: that attempt is the last
    event and the accounts after it are never attempted. *)
Theorem run_stops_at_the_first_failed_connection :
  forall w config h r out,
    main w config h = (r, out) ->
    match r with
    | inr _ =>
        connects out = map (host_of config) (keys (mboxes config)) /\
        forall host e, ~ In (Connected host (inl e)) out
    | inl e =>
        e = UnboundLocalError "user" /\
        exists pre id post e' before,
          keys (mboxes config) = pre ++ id :: post /\
          connects out = map (host_of config) (pre ++ [id]) /\
          out = before ++ [Connected (host_of config id) (inl e')] /\
          forall host e0, ~ In (Connected host (inl e0)) before
    end.
Proof.
  intros w config h r out H.
  unfold main, bind, logging in H.
  destruct (mbox_loop w config (keys (mboxes config)) (h ++ [Logged INFO MsgStart]))
    as [r' o'] eqn:El.
  inversion H; subst.
  apply mbox_loop_connects in El; [| intros id Hi; apply getitem_keys; exact Hi].
  destruct r as [e | u].
  - destruct El as (-> & pre & id & post & e' & before & Hk & Hc & -> & Hb).
    split; [reflexivity |].
    exists pre, id, post, e', (Logged INFO MsgStart :: before).
    repeat split; auto.
    intros host e0 [Heq | Hi]; [discriminate | eapply Hb; eauto].
  - destruct El as (Hc & Hb). split; [exact Hc |].
    intros host e0 [Heq | Hi]; [discriminate | eapply Hb; eauto].
Qed.

Lemma run_stops_at_the_first_failed_connection_witness :
  let run := main Examples.healthy Examples.two_accounts [] in
  fst run = inr tt /\
  connects (snd run) = ["imap.example.org"; "mail.example.net"].
Proof.
  cbn zeta. split; [reflexivity |].
  exact (proj1 (run_stops_at_the_first_failed_connection
                  Examples.healthy Examples.two_accounts [] (inr tt)
                  (snd (main Examples.healthy Examples.two_accounts []))
                  eq_refl)).
Defined.

(** ** The references of a search reply *)

Lemma append_empty_r (s : string) : String.append s EmptyString = s.
Proof. induction s as [| c s IH]; simpl; [reflexivity | rewrite IH; reflexivity]. Qed.

Lemma append_snoc (s : string) c t :
  String.append (String.append s (String c EmptyString)) t
  = String.append s (String c t).
Proof. induction s as [| c' s IH]; simpl; [reflexivity | rewrite IH; reflexivity]. Qed.

Lemma append_not_empty (s : string) c :
  String.append s (String c EmptyString) <> EmptyString.
Proof. destruct s; discriminate. Qed.

Lemma spaceless_snoc (s : string) c :
  spaceless s = true -> is_space c = false ->
  spaceless (String.append s (String c EmptyString)) = true.
Proof.
  intros Hs Hc. induction s as [| c' s IH]; simpl in *.
  - rewrite Hc. reflexivity.
  - apply andb_true_iff in Hs. destruct Hs as [H1 H2].
    rewrite H1, IH by assumption. reflexivity.
Qed.

(** A run of non-whitespace octets goes to the token being read. *)
Lemma split_from_spaceless (token : bytes) : forall cur s,
  spaceless token = true ->
  split_from cur (String.append token s)
  = split_from (String.append cur token) s.
Proof.
  induction token as [| c token IH]; intros cur s Hs; simpl in *.
  - rewrite append_empty_r. reflexivity.
  - apply andb_true_iff in Hs. destruct Hs as [Hc Hs].
    apply negb_true_iff in Hc. rewrite Hc.
    rewrite IH by assumption. rewrite append_snoc. reflexivity.
Qed.

(** Every token of a split is non-empty and free of whitespace. *)
Lemma split_from_tokens : forall s cur,
  spaceless cur = true ->
  Forall (fun token => token <> EmptyString /\ spaceless token = true)
         (split_from cur s).
Proof.
  induction s as [| c s IH]; intros cur Hcur; simpl.
  - destruct cur; simpl; [constructor |].
    constructor; [split; [discriminate | assumption] | constructor].
  - destruct (is_space c) eqn:Hc.
    + destruct cur; simpl; [apply IH; reflexivity |].
      constructor; [split; [discriminate | assumption] | apply IH; reflexivity].
    + apply IH. apply spaceless_snoc; assumption.
Qed.

Lemma split_from_nil : forall s cur,
  split_from cur s = [] <-> cur = EmptyString /\ blank s = true.
Proof.
  induction s as [| c s IH]; intros cur; simpl.
  - destruct cur; simpl; split; intros H; try tauto; try discriminate.
    destruct H. discriminate.
  - destruct (is_space c) eqn:Hc; simpl.
    + destruct cur; simpl.
      * rewrite IH. tauto.
      * split; [discriminate | intros [H _]; discriminate].
    + rewrite IH. split; [| intros [_ H]; discriminate].
      intros [H _]. exfalso. eapply append_not_empty; eauto.
Qed.

(** Splitting the tokens joined by single blanks gives the tokens back. *)
Lemma bytes_split_unwords : forall tokens,
  Forall (fun token => token <> EmptyString /\ spaceless token = true) tokens ->
  bytes_split (unwords tokens) = tokens.
Proof.
  unfold bytes_split.
  induction tokens as [| token rest IH]; intros Hok; [reflexivity |].
  inversion Hok as [| ? ? [Hne Hs] Hrest]; subst.
  destruct rest as [| token2 rest].
  - cbn [unwords].
    rewrite <- (append_empty_r token) at 1.
    rewrite split_from_spaceless by assumption. simpl.
    destruct token; [contradiction | reflexivity].
  - change (unwords (token :: token2 :: rest))
      with (String.append token (String " " (unwords (token2 :: rest)))).
    rewrite split_from_spaceless by assumption.
    cbn [String.append split_from].
    change (is_space " ") with true. cbv iota.
    rewrite IH by assumption.
    destruct token; [contradiction | reflexivity].
Qed.

(** X15: when the search answers OK with message numbers joined by
    single blanks, which is how a server lists them, and the reap returns,
    a store was issued for exactly these numbers, in the order of the
    reply, and the folder was expunged once. *)
Theorem marks_exactly_the_listed_numbers :
  forall w mail user folder cut h out s c nums rest,
    process_mailbox_folder w mail user folder cut h = (inr tt, out) ->
    In (Commanded s (Search c) (inr ("OK", PBytes (unwords nums) :: rest))) out ->
    Forall (fun num => num <> EmptyString /\ spaceless num = true) nums ->
    stores out = nums /\ expunges out = [mail].
Proof.
  intros w mail user folder cut h out s c nums rest H Hin Hok.
  destruct (reap_after_search _ _ _ _ _ _ _ _ _ _ _ H Hin)
    as (rs & rb & ob & _ & _ & Hpf & Hout).
  pose proof (Emits_process_found _ _ _ _ _ _ _ _ Hpf) as Hm.
  apply marking_projections in Hm. destruct Hm as (_ & _ & Hex & _).
  rewrite process_found_OK, bytes_split_unwords in Hpf by assumption.
  destruct rb as [e | []].
  { destruct Hout as [He _]. discriminate. }
  destruct Hout as (rx & -> & _).
  apply mark_loop_returned in Hpf. destruct Hpf as [Hs _].
  rewrite !stores_app, !expunges_app, Hs, Hex. cbn. rewrite app_nil_r.
  split; reflexivity.
Qed.

Lemma marks_exactly_the_listed_numbers_witness :
  let out := snd (process_mailbox_folder Examples.healthy 0 "anna" "INBOX" 24 []) in
  In (Commanded 0 (Search (OLDER 86400))
        (inr ("OK", [PBytes (unwords ["4"; "9"; "17"])]))) out /\
  stores out = ["4"; "9"; "17"] /\ expunges out = [0].
Proof.
  cbn zeta. split; [in_trace |].
  apply (marks_exactly_the_listed_numbers
           Examples.healthy 0 "anna" "INBOX" 24 [] _ 0 (OLDER 86400)
           ["4"; "9"; "17"] []);
    [reflexivity | in_trace |].
  repeat constructor; discriminate.
Defined.

(** X16: the reference list [messages[0].split()] of a search reply is
    empty exactly when the first data element holds nothing but ASCII
    whitespace (the empty [bytes] object included). *)
Theorem no_reference_iff_blank_reply :
  forall d : bytes, bytes_split d = [] <-> blank d = true.
Proof.
  intros d. unfold bytes_split. rewrite split_from_nil. tauto.
Qed.

(** X17: a store is never issued for an empty reference or for one that
    contains whitespace, whatever the server put into its reply. *)
Theorem never_marks_an_empty_reference :
  forall w mail user folder cut h num,
    In num (stores (snd (process_mailbox_folder w mail user folder cut h))) ->
    num <> EmptyString /\ spaceless num = true.
Proof.
  intros w mail user folder cut h num Hnum.
  destruct (process_mailbox_folder w mail user folder cut h) as [r out] eqn:H.
  cbn [snd] in Hnum.
  destruct (reap_projections _ _ _ _ _ _ _ _ H)
    as [(Hs & _) | (rp & rb & ob & hb & Hin & Hpf & Hs & _)].
  { rewrite Hs in Hnum. destruct Hnum. }
  rewrite Hs in Hnum.
  destruct (process_found_prefixes _ _ _ _ _ _ _ _ Hpf)
    as [(Hs0 & _) | (d & rest & k & j & -> & Hk & _)].
  { rewrite Hs0 in Hnum. destruct Hnum. }
  rewrite Hk in Hnum. apply In_firstn in Hnum.
  pose proof (split_from_tokens d EmptyString eq_refl) as Hok.
  rewrite Forall_forall in Hok. apply Hok. exact Hnum.
Qed.

Lemma never_marks_an_empty_reference_witness :
  In "9" (stores (snd (process_mailbox_folder
                         Examples.healthy 0 "anna" "INBOX" 24 []))) /\
  "9" <> EmptyString /\ spaceless "9" = true.
Proof.
  split; [vm_compute; auto |].
  apply (never_marks_an_empty_reference Examples.healthy 0 "anna" "INBOX" 24 [] "9").
  vm_compute; auto.
Defined.
